(** * Verification of [frontend/src/lib/sanitize.ts]

    A shallow embedding of the sanitization utilities: the entity table,
    the list of dangerous patterns, [escapeHtml], [removeDangerousPatterns],
    [sanitizeInput], [isInputSafe] and [sanitizeNoteInput].

    JavaScript strings are sequences of UTF-16 code units; a code unit is
    modelled as an [N] and a string as a [list N].  The regular expressions
    of the source are kept as syntax trees and run by a backtracking matcher
    that follows the ECMAScript matcher (continuation passing, greedy
    repetition that rejects empty iterations, negative lookahead, word
    boundary).  Every regular expression of the source carries the [g] flag,
    so [RegExp.prototype.test] reads and writes the object's [lastIndex]:
    the eleven objects of [DANGEROUS_PATTERNS] live at module level, and
    their [lastIndex] slots form the store that is threaded through the
    functions. *)

From Stdlib Require Import String Ascii List NArith Bool Arith Lia.
Import ListNotations.

(** ** Strings as code-unit sequences *)

Module Str.

Abbreviation code_unit := N (only parsing).
Abbreviation str := (list N) (only parsing).

(** An ASCII literal of the source as a code-unit sequence. *)
Fixpoint lit (s : string) : str :=
  match s with
  | EmptyString => []
  | String a s' => N_of_ascii a :: lit s'
  end.

(** [WhiteSpace] and [LineTerminator] code units: the set removed by
    [String.prototype.trim] and matched by [\s]. *)
Definition is_space (c : code_unit) : bool :=
  ((9 <=? c) && (c <=? 13) || (c =? 32) || (c =? 160) || (c =? 5760)
   || (8192 <=? c) && (c <=? 8202) || (c =? 8232) || (c =? 8233)
   || (c =? 8239) || (c =? 8287) || (c =? 12288) || (c =? 65279))%N.

(** [\w]: the basic word characters [A-Za-z0-9_]. *)
Definition is_word (c : code_unit) : bool :=
  ((65 <=? c) && (c <=? 90) || (97 <=? c) && (c <=? 122)
   || (48 <=? c) && (c <=? 57) || (c =? 95))%N.

(** [Canonicalize] for a pattern without the [u] flag, on the code units
    that matter here: every pattern character of the source is ASCII, and
    the ECMAScript rule never maps a code unit of 128 or more to one below
    128, so folding the ASCII letters decides every comparison made. *)
Definition canon (c : code_unit) : code_unit :=
  if ((97 <=? c) && (c <=? 122))%N then (c - 32)%N else c.

Fixpoint drop_space (s : str) : str :=
  match s with
  | [] => []
  | c :: s' => if is_space c then drop_space s' else s
  end.

(** [String.prototype.trim]. *)
Definition trim (s : str) : str :=
  rev (drop_space (rev (drop_space s))).

(** [String.prototype.substring(0, n)]. *)
Definition substring0 (n : nat) (s : str) : str := firstn n s.

Definition eqb (a b : str) : bool :=
  if list_eq_dec N.eq_dec a b then true else false.

(** [a] is a prefix of [b] up to ASCII case. *)
Fixpoint prefix_ci (a b : str) : bool :=
  match a, b with
  | [], _ => true
  | _ :: _, [] => false
  | x :: a', y :: b' => (canon x =? canon y)%N && prefix_ci a' b'
  end.

(** [hay] contains [needle] as a substring, compared up to ASCII case. *)
Fixpoint includes_ci (needle hay : str) : bool :=
  prefix_ci needle hay
  || match hay with
     | [] => false
     | _ :: hay' => includes_ci needle hay'
     end.

End Str.
Import Str.

(** ** Regular expressions *)

Module Regex.

(** The constructs used by the patterns of [sanitize.ts]. *)
Inductive re : Type :=
| Chr (c : code_unit)              (* a pattern character *)
| NotChr (c : code_unit)           (* [^c] *)
| OneOf (cs : list code_unit)      (* [c1c2...] *)
| WordCh                           (* \w *)
| SpaceCh                          (* \s *)
| WordB                            (* \b *)
| NegLook (r : re)                 (* (?!r) *)
| Seq (r1 r2 : re)
| Alt (r1 r2 : re)                 (* r1|r2 *)
| Star (r : re).                   (* r*, greedy *)

(** [r+] is [r{1,}]: one iteration, then the greedy [r*]. *)
Definition Plus (r : re) : re := Seq r (Star r).

(** A literal run of pattern characters. *)
Fixpoint Lit (s : str) : re :=
  match s with
  | [] => Star (OneOf [])          (* matches the empty string only *)
  | [c] => Chr c
  | c :: s' => Seq (Chr c) (Lit s')
  end.

(** A position in the subject: the code unit just before it, if any, and
    the code units from it on. *)
Definition cursor : Type := option code_unit * str.

Definition rest (x : cursor) : str := snd x.

Definition step (d : code_unit) (s : str) : cursor := (Some d, s).

Definition is_word_opt (o : option code_unit) : bool :=
  match o with Some c => is_word c | None => false end.

(** Character comparison under the [i] flag. *)
Definition chr_eq (ic : bool) (c d : code_unit) : bool :=
  if ic then (canon c =? canon d)%N else (c =? d)%N.

Definition one (p : code_unit -> bool) (x : cursor)
           (k : cursor -> option cursor) : option cursor :=
  match rest x with
  | d :: s => if p d then k (step d s) else None
  | [] => None
  end.

(** The loop of ECMAScript's RepeatMatcher with min 0 and no max, greedy,
    for the matcher [body] of the repeated pattern: it first tries one more
    iteration, refusing an iteration that consumed nothing, and falls back
    to the continuation [k].  An iteration consumes at least one code unit,
    so the counter [n], started above the number of code units left, never
    reaches zero. *)
Fixpoint repeat_matcher
         (body : cursor -> (cursor -> option cursor) -> option cursor)
         (k : cursor -> option cursor) (n : nat) (x : cursor)
  : option cursor :=
  match n with
  | O => k x
  | S n' =>
      match body x (fun y => if length (rest y) =? length (rest x)
                             then None else repeat_matcher body k n' y) with
      | Some z => Some z
      | None => k x
      end
  end.

(** The backtracking matcher: [m ic r x k] matches [r] at [x] and hands the
    position reached to the continuation [k]; the first success wins. *)
Fixpoint m (ic : bool) (r : re) (x : cursor)
         (k : cursor -> option cursor) {struct r} : option cursor :=
  match r with
  | Chr c => one (chr_eq ic c) x k
  | NotChr c => one (fun d => negb (chr_eq ic c d)) x k
  | OneOf cs => one (fun d => existsb (fun c => chr_eq ic c d) cs) x k
  | WordCh => one is_word x k
  | SpaceCh => one is_space x k
  | WordB =>
      if xorb (is_word_opt (fst x)) (is_word_opt (hd_error (rest x)))
      then k x else None
  | NegLook r1 =>
      match m ic r1 x (fun y => Some y) with
      | Some _ => None
      | None => k x
      end
  | Seq r1 r2 => m ic r1 x (fun y => m ic r2 y k)
  | Alt r1 r2 =>
      match m ic r1 x k with
      | Some z => Some z
      | None => m ic r2 x k
      end
  | Star r1 => repeat_matcher (m ic r1) k (S (length (rest x))) x
  end.

(** A regular expression object: its pattern and its [i] flag.  All the
    objects of the source also carry [g]. *)
Record RegExp : Type := mkRegExp { source : re; ignoreCase : bool }.

(** The length of the match of [R] that starts at [x], if there is one. *)
Definition match_at (R : RegExp) (x : cursor) : option nat :=
  match m (ignoreCase R) (source R) x (fun y => Some y) with
  | Some y => Some (length (rest x) - length (rest y))
  | None => None
  end.

(** The scan of RegExpBuiltinExec: the first position at or after [x]
    where [R] matches, with the index [i] of [x]; the result is the start
    and the end index of the match. *)
Fixpoint scan (R : RegExp) (prev : option code_unit) (s : str) (i : nat)
  : option (nat * nat) :=
  match match_at R (prev, s) with
  | Some n => Some (i, i + n)
  | None =>
      match s with
      | [] => None
      | c :: s' => scan R (Some c) s' (S i)
      end
  end.

(** The cursor at index [i] of [s]. *)
Fixpoint cursor_at (prev : option code_unit) (s : str) (i : nat) : cursor :=
  match i, s with
  | S i', c :: s' => cursor_at (Some c) s' i'
  | _, _ => (prev, s)
  end.

(** RegExpBuiltinExec for a global regular expression whose [lastIndex] is
    [lastIndex]: no match when [lastIndex] is beyond the end. *)
Definition exec (R : RegExp) (lastIndex : nat) (s : str)
  : option (nat * nat) :=
  if length s <? lastIndex then None
  else let x := cursor_at None s lastIndex in
       scan R (fst x) (snd x) lastIndex.

(** [RegExp.prototype.test] on a global object: the verdict and the new
    [lastIndex] (the end of the match, or 0 after a failure). *)
Definition test (R : RegExp) (lastIndex : nat) (s : str) : bool * nat :=
  match exec R lastIndex s with
  | Some (_, e) => (true, e)
  | None => (false, 0)
  end.

(** [String.prototype.replace] with a global regular expression and a
    replacement function [f] of the matched text.  The scan starts at
    index 0 whatever [lastIndex] was; [skip] counts the code units of the
    current match still to be passed over.  An empty match contributes
    [f []] and the scan moves one code unit on. *)
Fixpoint replace_go (R : RegExp) (f : str -> str)
         (prev : option code_unit) (s : str) (skip : nat) : str :=
  match s with
  | [] =>
      match skip, match_at R (prev, []) with
      | O, Some _ => f []
      | _, _ => []
      end
  | c :: s' =>
      match skip with
      | S j => replace_go R f (Some c) s' j
      | O =>
          match match_at R (prev, s) with
          | Some (S j) => f (firstn (S j) s) ++ replace_go R f (Some c) s' j
          | Some O => f [] ++ c :: replace_go R f (Some c) s' 0
          | None => c :: replace_go R f (Some c) s' 0
          end
      end
  end.

Definition replace (R : RegExp) (f : str -> str) (s : str) : str :=
  replace_go R f None s 0.

End Regex.
Import Regex.

(** ** The module-level tables *)

Definition ch (a : ascii) : code_unit := N_of_ascii a.

(** The double quote, written by its code. *)
Definition dquote : code_unit := 34%N.

(** [HTML_ENTITIES]: the object literal as its list of own properties. *)
Definition HTML_ENTITIES : list (str * str) :=
  [ (lit "&", lit "&amp;");
    (lit "<", lit "&lt;");
    (lit ">", lit "&gt;");
    ([dquote], lit "&quot;");
    (lit "'", lit "&#x27;");
    (lit "/", lit "&#x2F;");
    (lit "`", lit "&#x60;");
    (lit "=", lit "&#x3D;") ].

(** [HTML_ENTITIES[key]]: [None] stands for [undefined]. *)
Fixpoint get (o : list (str * str)) (key : str) : option str :=
  match o with
  | [] => None
  | (k, v) :: o' => if Str.eqb k key then Some v else get o' key
  end.

(** Concatenation of a sequence of pattern pieces. *)
Fixpoint Cat (rs : list re) : re :=
  match rs with
  | [] => Star (OneOf [])
  | [r] => r
  | r :: rs' => Seq r (Cat rs')
  end.

(** The tag-block pattern for [name], flags [gi]: the literal [<name], a
    word boundary, [[^<]*], then any number of groups made of a [<] that
    does not start the closing tag (negative lookahead) followed by
    [[^<]*], and last the closing tag [</name>]. *)
Definition tag_block (name : string) : RegExp :=
  let close := Lit (lit "</" ++ lit name ++ lit ">") in
  mkRegExp
    (Cat [ Lit (lit "<" ++ lit name); WordB; Star (NotChr (ch "<"));
           Star (Cat [NegLook close; Chr (ch "<"); Star (NotChr (ch "<"))]);
           close ])
    true.

(** [/scheme/gi] for a literal scheme token. *)
Definition scheme (token : string) : RegExp := mkRegExp (Lit (lit token)) true.

(** [/on\w+\s*=/gi]. *)
Definition on_handler : RegExp :=
  mkRegExp (Cat [Lit (lit "on"); Plus WordCh; Star SpaceCh; Chr (ch "=")]) true.

Definition DANGEROUS_PATTERNS : list RegExp :=
  [ tag_block "script";
    tag_block "iframe";
    tag_block "object";
    tag_block "embed";
    tag_block "link";
    tag_block "meta";
    tag_block "style";
    scheme "javascript:";
    scheme "vbscript:";
    scheme "data:";
    on_handler ].

(** The character class of [escapeHtml], flag [g]: ampersand, angle
    brackets, both quotes, backquote, equals sign and slash. *)
Definition special_chars : list code_unit :=
  [ch "&"; ch "<"; ch ">"; dquote; ch "'"; ch "`"; ch "="; ch "/"].

Definition re_special : RegExp := mkRegExp (OneOf special_chars) false.

(** [/<[^>]*>/g], the literal of the residual tag strip and of the tag
    check. *)
Definition re_tag : RegExp :=
  mkRegExp (Cat [Chr (ch "<"); Star (NotChr (ch ">")); Chr (ch ">")]) false.

(** [/javascript:|data:/gi], the literal of the last check. *)
Definition re_js_data : RegExp :=
  mkRegExp (Alt (Lit (lit "javascript:")) (Lit (lit "data:"))) true.

(** ** The store: the [lastIndex] slots of [DANGEROUS_PATTERNS] *)

(** [st i] is the [lastIndex] of the object [DANGEROUS_PATTERNS[i]].  The
    regular expression literals inside function bodies are evaluated to a
    fresh object (with [lastIndex] 0) each time the body runs, so they have
    no slot. *)
Definition store : Type := nat -> nat.

Definition fresh : store := fun _ => 0.

Definition set_lastIndex (i v : nat) (st : store) : store :=
  fun j => if j =? i then v else st j.

Definition M (A : Type) : Type := store -> A * store.

Definition ret {A : Type} (a : A) : M A := fun st => (a, st).

Definition bind {A B : Type} (c : M A) (f : A -> M B) : M B :=
  fun st => let (a, st') := c st in f a st'.

Notation "x <- c ;; d" := (bind c (fun x => d))
  (at level 61, c at next level, right associativity).

(** [s.replace(DANGEROUS_PATTERNS[i], empty)]: the result does not depend on
    the slot, which is reset before the scan and is 0 after it. *)
Definition replace_pattern (i : nat) (R : RegExp) (s : str) : M str :=
  fun st => (replace R (fun _ => []) s, set_lastIndex i 0 st).

(** [DANGEROUS_PATTERNS[i].test(s)]. *)
Definition test_pattern (i : nat) (R : RegExp) (s : str) : M bool :=
  fun st => let (b, e) := test R (st i) s in (b, set_lastIndex i e st).

(** A literal evaluated in place: a fresh object. *)
Definition test_literal (R : RegExp) (s : str) : bool := fst (test R 0 s).

(** ** JavaScript values and outcomes *)

Inductive value : Type :=
| VUndefined
| VNull
| VBoolean (b : bool)
| VNumber (n : N)
| VObject
| VString (s : str).

(** ToBoolean; a number is given by its magnitude, which is all that
    truthiness needs here. *)
Definition truthy (v : value) : bool :=
  match v with
  | VUndefined | VNull => false
  | VBoolean b => b
  | VNumber n => negb (n =? 0)%N
  | VObject => true
  | VString s => match s with [] => false | _ => true end
  end.

Definition is_string (v : value) : bool :=
  match v with VString _ => true | _ => false end.

(** [!input || typeof input !== "string"]: the text of a non-empty string,
    [None] for everything else. *)
Definition guard (input : value) : option str :=
  if negb (truthy input) || negb (is_string input) then None
  else match input with VString s => Some s | _ => None end.

Inductive outcome (A : Type) : Type :=
| Returns (a : A)
| Throws (message : str).
Arguments Returns {A} a.
Arguments Throws {A} message.

(** ** The functions of [sanitize.ts] *)

Definition escapeHtml (text : str) : str :=
  replace re_special
          (fun char => match get HTML_ENTITIES char with
                       | Some ((_ :: _) as e) => e
                       | _ => char
                       end)
          text.

(** The [forEach] of [removeDangerousPatterns], from index [i] on. *)
Fixpoint forEach_replace (i : nat) (ps : list RegExp) (sanitized : str)
  : M str :=
  match ps with
  | [] => ret sanitized
  | p :: ps' =>
      sanitized' <- replace_pattern i p sanitized ;;
      forEach_replace (S i) ps' sanitized'
  end.

Definition removeDangerousPatterns (text : str) : M str :=
  forEach_replace 0 DANGEROUS_PATTERNS text.

Definition MAX_LENGTH : nat := 5000.

Definition strip_tags (s : str) : str := replace re_tag (fun _ => []) s.

Definition clamp (s : str) : str :=
  if MAX_LENGTH <? length s then substring0 MAX_LENGTH s else s.

Definition sanitizeInput (input : value) : M str :=
  match guard input with
  | None => ret []
  | Some s =>
      sanitized <- removeDangerousPatterns (trim s) ;;
      ret (clamp (strip_tags (escapeHtml sanitized)))
  end.

(** The [for ... of] loop of [isInputSafe], from index [i] on: [true] when
    a pattern tested true and the function returned [false] from inside
    the loop. *)
Fixpoint for_of_test (i : nat) (ps : list RegExp) (input : str) : M bool :=
  match ps with
  | [] => ret false
  | p :: ps' =>
      hit <- test_pattern i p input ;;
      if hit then ret true else for_of_test (S i) ps' input
  end.

Definition isInputSafe (input : value) : M bool :=
  match guard input with
  | None => ret true
  | Some s =>
      hit <- for_of_test 0 DANGEROUS_PATTERNS s ;;
      if hit then ret false
      else if test_literal re_tag s then ret false
      else if test_literal re_js_data s then ret false
      else ret true
  end.

Definition INVALID_INPUT : str :=
  lit "Invalid input: Contains potentially dangerous content".

Definition sanitizeNoteInput (input : value) : M (outcome str) :=
  sanitized <- sanitizeInput input ;;
  safe <- isInputSafe (VString sanitized) ;;
  if negb safe then ret (Throws INVALID_INPUT)
  else ret (Returns sanitized).

(** ** [sanitizeInput] on an arbitrary value *)

(** The parameter of [sanitizeInput] has the TypeScript type [string], which
    is erased at run time: the function can be handed any value, and the
    method call on [input] is resolved as JavaScript resolves it. *)
Definition TYPE_ERROR : str := lit "TypeError".

(** [v.trim()]: the trimmed text on a string.  The property read throws a
    TypeError on [null] and [undefined]; on a boolean, a number or an
    object (taken without a [trim] of its own) the property is [undefined]
    and the call throws a TypeError. *)
Definition call_trim (v : value) : outcome str :=
  match v with
  | VString s => Returns (trim s)
  | _ => Throws TYPE_ERROR
  end.

(** The body of [sanitizeInput] below its guard: the statements from
    [input.trim()] to the [return].  From the trimmed text on, every
    receiver is a string. *)
Definition sanitize_steps (input : value) : M (outcome str) :=
  match call_trim input with
  | Throws e => ret (Throws e)
  | Returns trimmed =>
      sanitized <- removeDangerousPatterns trimmed ;;
      ret (Returns (clamp (strip_tags (escapeHtml sanitized))))
  end.

(** [sanitizeInput] as it runs on any value: the guard, then the body. *)
Definition sanitizeInput_any (input : value) : M (outcome str) :=
  if negb (truthy input) || negb (is_string input) then ret (Returns [])
  else sanitize_steps input.

(** ** Notions used by the statements *)

(** The text produced by the [forEach] of [removeDangerousPatterns]. *)
Definition remove_all (ps : list RegExp) (s : str) : str :=
  fold_left (fun acc p => replace p (fun _ => []) acc) ps s.

(** The text [sanitizeInput] returns, as a function of the input alone. *)
Definition sanitized_text (input : value) : str :=
  match guard input with
  | None => []
  | Some s => clamp (strip_tags (escapeHtml (remove_all DANGEROUS_PATTERNS (trim s))))
  end.

(** [R] matches somewhere in [s]: [R.test(s)] on a fresh object. *)
Definition matches (R : RegExp) (s : str) : bool := test_literal R s.

(** [a] is what is left of [b] after some code units. *)
Definition suffix (a b : str) : Prop := exists pre, b = pre ++ a.

(** The characters that [escapeHtml] leaves nowhere in its result: all
    the special characters but the ampersand, which the entities carry. *)
Definition raw_chars : list code_unit :=
  [ch "<"; ch ">"; dquote; ch "'"; ch "`"; ch "="; ch "/"].

Definition is_raw (c : code_unit) : bool := existsb (N.eqb c) raw_chars.

Definition is_special (c : code_unit) : bool :=
  existsb (fun c' => (c' =? c)%N) special_chars.

Definition no_raw (s : str) : Prop := Forall (fun c => is_raw c = false) s.

(** A text that is already safe: none of the special characters, and no
    dangerous pattern matches in it. *)
Definition safe_text (s : str) : bool :=
  forallb (fun c => negb (is_special c)) s
  && forallb (fun R => negb (matches R s)) DANGEROUS_PATTERNS.

(** The replacement function of [escapeHtml]. *)
Definition entity_or_self (char : str) : str :=
  match get HTML_ENTITIES char with
  | Some ((_ :: _) as e) => e
  | _ => char
  end.

(** What [escapeHtml] writes for one code unit. *)
Definition escape_unit (c : code_unit) : str :=
  if is_special c then entity_or_self [c] else [c].

(** The names of the seven tag-block patterns, in the order of
    [DANGEROUS_PATTERNS]. *)
Definition tag_names : list string :=
  ["script"; "iframe"; "object"; "embed"; "link"; "meta"; "style"]%string.

(** The four tokens of the containment property, absent from [out]. *)
Definition no_dangerous_tokens (out : str) : Prop :=
  includes_ci (lit "<script") out = false
  /\ includes_ci (lit "<iframe") out = false
  /\ includes_ci (lit "javascript:") out = false
  /\ includes_ci (lit "vbscript:") out = false.

(** ** Tests on concrete inputs *)

Example sanitize_bold_fresh :
  fst (sanitizeInput (VString (lit "<b>Hello</b>")) fresh)
  = lit "&lt;b&gt;Hello&lt;&#x2F;b&gt;".
Proof. vm_compute. reflexivity. Qed.

Example sanitize_script_block :
  fst (sanitizeInput (VString (lit "a<script x>1<i>2</SCRIPT>b on_x  =c")) fresh)
  = lit "ab c".
Proof. vm_compute. reflexivity. Qed.

Example sanitize_reassembles :
  fst (sanitizeInput (VString (lit "javajavascript:script:")) fresh)
  = lit "javascript:".
Proof. vm_compute. reflexivity. Qed.

Example note_onclick :
  fst (sanitizeNoteInput (VString (lit "onclick=alert(1)")) fresh)
  = Returns (lit "alert(1)").
Proof. vm_compute. reflexivity. Qed.

Example word_boundary_needed :
  fst (sanitizeInput (VString (lit " <scriptx></script><style>a</style>b")) fresh)
  = lit "&lt;scriptx&gt;&lt;&#x2F;script&gt;b".
Proof. vm_compute. reflexivity. Qed.

(** ** The store is only touched through the slots *)

Section StoreLemmas.

Lemma forEach_replace_fst (ps : list RegExp) :
  forall i s st, fst (forEach_replace i ps s st) = remove_all ps s.
Proof.
  induction ps as [|p ps IH]; intros i s st; [reflexivity|].
  cbn [forEach_replace remove_all fold_left].
  unfold bind, replace_pattern. apply IH.
Qed.

Lemma forEach_replace_snd (ps : list RegExp) :
  forall i s st j,
    snd (forEach_replace i ps s st) j
    = if (i <=? j) && (j <? i + length ps) then 0 else st j.
Proof.
  induction ps as [|p ps IH]; intros i s st j.
  - cbn [forEach_replace ret snd length].
    destruct (Nat.leb_spec i j), (Nat.ltb_spec j (i + 0));
      cbn [andb]; reflexivity || lia.
  - cbn [forEach_replace]. unfold bind, replace_pattern. rewrite IH.
    unfold set_lastIndex. cbn [length].
    destruct (Nat.leb_spec (S i) j), (Nat.ltb_spec j (S i + length ps)),
      (Nat.leb_spec i j), (Nat.ltb_spec j (i + S (length ps))),
      (Nat.eqb_spec j i); cbn [andb snd]; reflexivity || lia.
Qed.

Lemma for_of_test_ext (ps : list RegExp) :
  forall i s st st',
    (forall j, i <= j < i + length ps -> st j = st' j) ->
    fst (for_of_test i ps s st) = fst (for_of_test i ps s st').
Proof.
  induction ps as [|p ps IH]; intros i s st st' H; [reflexivity|].
  cbn [for_of_test]. unfold bind, test_pattern.
  rewrite (H i) by (cbn; lia).
  destruct (test p (st' i) s) as [b e]. destruct b; [reflexivity|].
  apply IH. intros j Hj. unfold set_lastIndex.
  destruct (Nat.eqb_spec j i); [reflexivity|]. apply H. cbn. lia.
Qed.

Lemma sanitizeInput_fst (input : value) (st : store) :
  fst (sanitizeInput input st) = sanitized_text input.
Proof.
  unfold sanitizeInput, sanitized_text.
  destruct (guard input) as [s|]; [|reflexivity].
  unfold bind, removeDangerousPatterns.
  pose proof (forEach_replace_fst DANGEROUS_PATTERNS 0 (trim s) st) as H.
  destruct (forEach_replace 0 DANGEROUS_PATTERNS (trim s) st) as [t st'].
  cbn in H |- *. now rewrite H.
Qed.

(** After [sanitizeInput] every slot is 0, unless the guard returned at
    once, and then the text is empty. *)
Lemma sanitizeInput_snd (input : value) (st : store) :
  sanitized_text input = []
  \/ forall j, j < length DANGEROUS_PATTERNS -> snd (sanitizeInput input st) j = 0.
Proof.
  unfold sanitizeInput, sanitized_text.
  destruct (guard input) as [s|]; [right|now left].
  intros j Hj. unfold bind, removeDangerousPatterns.
  pose proof (forEach_replace_snd DANGEROUS_PATTERNS 0 (trim s) st j) as H.
  destruct (forEach_replace 0 DANGEROUS_PATTERNS (trim s) st) as [t st'].
  cbn [snd ret] in H |- *. rewrite H.
  destruct (Nat.leb_spec 0 j), (Nat.ltb_spec j (0 + length DANGEROUS_PATTERNS));
    cbn [andb]; reflexivity || lia.
Qed.

(** The verdict of [isInputSafe] on a store whose slots are all 0. *)
Lemma isInputSafe_zero_slots (input : value) (st : store) :
  (forall j, j < length DANGEROUS_PATTERNS -> st j = 0) ->
  fst (isInputSafe input st) = fst (isInputSafe input fresh).
Proof.
  intros H. unfold isInputSafe.
  destruct (guard input) as [s|]; [|reflexivity].
  unfold bind.
  pose proof (for_of_test_ext DANGEROUS_PATTERNS 0 s st fresh) as E.
  destruct (for_of_test 0 DANGEROUS_PATTERNS s st) as [hit st1].
  destruct (for_of_test 0 DANGEROUS_PATTERNS s fresh) as [hit' st1'].
  cbn [fst] in E. rewrite E by (intros j Hj; apply H; cbn in *; lia).
  destruct hit'; [reflexivity|].
  destruct (test_literal re_tag s); [reflexivity|].
  destruct (test_literal re_js_data s); reflexivity.
Qed.

(** The two checks made with fresh literals do not depend on the store. *)
Lemma isInputSafe_literals (s : str) (st : store) :
  s <> [] ->
  test_literal re_tag s || test_literal re_js_data s = true ->
  fst (isInputSafe (VString s) st) = false.
Proof.
  intros Hs H. unfold isInputSafe.
  destruct s as [|c s]; [congruence|]. cbn [guard truthy is_string negb orb].
  unfold bind.
  destruct (for_of_test 0 DANGEROUS_PATTERNS (c :: s) st) as [hit st1].
  destruct hit; [reflexivity|].
  destruct (test_literal re_tag (c :: s)); [reflexivity|].
  destruct (test_literal re_js_data (c :: s)); [reflexivity|discriminate].
Qed.

End StoreLemmas.

(** ** The validated operation *)

Lemma sanitizeNoteInput_fst (input : value) (st : store) :
  fst (sanitizeNoteInput input st)
  = if fst (isInputSafe (VString (sanitized_text input))
                        (snd (sanitizeInput input st)))
    then Returns (sanitized_text input) else Throws INVALID_INPUT.
Proof.
  unfold sanitizeNoteInput, bind.
  rewrite <- (sanitizeInput_fst input st).
  destruct (sanitizeInput input st) as [t st1]. cbn [fst snd].
  destruct (isInputSafe (VString t) st1) as [safe st2]. cbn [fst].
  now destruct safe.
Qed.

Lemma isInputSafe_after_sanitize (input : value) (st : store) :
  fst (isInputSafe (VString (sanitized_text input))
                   (snd (sanitizeInput input st)))
  = fst (isInputSafe (VString (sanitized_text input)) fresh).
Proof.
  destruct (sanitizeInput_snd input st) as [E|Z].
  - now rewrite E.
  - now apply isInputSafe_zero_slots.
Qed.

(** C2: [sanitizeNoteInput] runs [sanitizeInput], then [isInputSafe] on the
    sanitized text in the store [sanitizeInput] left; it throws, with the
    fixed message, exactly when that verdict is unsafe, and returns the
    sanitized text otherwise.  The verdict is the one [isInputSafe] gives
    on the sanitized text with every [lastIndex] at 0. *)
Theorem sanitizeNoteInput_contract (input : value) (st : store) :
  let sanitized := fst (sanitizeInput input st) in
  let st1 := snd (sanitizeInput input st) in
  let safe := fst (isInputSafe (VString sanitized) st1) in
  let st2 := snd (isInputSafe (VString sanitized) st1) in
  sanitizeNoteInput input st
  = ((if safe then Returns sanitized else Throws INVALID_INPUT), st2)
  /\ (fst (sanitizeNoteInput input st) = Throws INVALID_INPUT <-> safe = false)
  /\ (fst (sanitizeNoteInput input st) = Returns sanitized <-> safe = true)
  /\ safe = fst (isInputSafe (VString sanitized) fresh)
  /\ INVALID_INPUT
     = lit "Invalid input: Contains potentially dangerous content".
Proof.
  cbv zeta.
  assert (E : sanitizeNoteInput input st
              = ((if fst (isInputSafe (VString (fst (sanitizeInput input st)))
                                      (snd (sanitizeInput input st)))
                  then Returns (fst (sanitizeInput input st))
                  else Throws INVALID_INPUT),
                 snd (isInputSafe (VString (fst (sanitizeInput input st)))
                                  (snd (sanitizeInput input st))))).
  { unfold sanitizeNoteInput, bind.
    destruct (sanitizeInput input st) as [t st1]. cbn [fst snd].
    destruct (isInputSafe (VString t) st1) as [safe st2]. cbn [fst snd].
    now destruct safe. }
  rewrite E. cbn [fst]. repeat split.
  - destruct (fst (isInputSafe _ _)); [discriminate|reflexivity].
  - destruct (fst (isInputSafe _ _)); [discriminate|reflexivity].
  - destruct (fst (isInputSafe _ _)); [reflexivity|discriminate].
  - destruct (fst (isInputSafe _ _)); [reflexivity|discriminate].
  - rewrite sanitizeInput_fst. apply isInputSafe_after_sanitize.
Qed.

(** ** The safety predicate *)

(** C3: two calls of [isInputSafe] in succession on the same input need
    not agree.  The first call on [onclick=] stops in the loop at the
    event-handler pattern, whose [lastIndex] stays at 8; the second call
    scans that pattern from index 8, finds nothing, and reports safe. *)
Theorem isInputSafe_second_call_differs :
  let input := VString (lit "onclick=") in
  let st1 := snd (isInputSafe input fresh) in
  fst (isInputSafe input fresh) = false
  /\ st1 10 = 8
  /\ fst (isInputSafe input st1) = true
  /\ ~ (forall (v : value) (st : store),
          fst (isInputSafe v (snd (isInputSafe v st))) = fst (isInputSafe v st)).
Proof.
  cbv zeta.
  split; [vm_compute; reflexivity|].
  split; [vm_compute; reflexivity|].
  split; [vm_compute; reflexivity|].
  intros H.
  specialize (H (VString (lit "onclick=")) fresh).
  vm_compute in H. discriminate.
Qed.

(** C8: empty-equivalent input is safe, and the script block is unsafe,
    whatever the [lastIndex] slots hold. *)
Theorem isInputSafe_examples (st : store) :
  fst (isInputSafe (VString []) st) = true
  /\ fst (isInputSafe VNull st) = true
  /\ fst (isInputSafe (VString (lit "<script>alert(1)</script>")) st) = false.
Proof.
  repeat split.
  apply isInputSafe_literals; [discriminate|].
  vm_compute. reflexivity.
Qed.

(** ** The top-level operation on concrete inputs *)

(** C4: the bold tag is escaped, not removed: pattern removal leaves the
    text as it is, escaping rewrites the angle brackets and the slash, and
    the residual tag strip finds nothing to remove. *)
Theorem sanitizeInput_bold (st : store) :
  let input := lit "<b>Hello</b>" in
  let escaped := lit "&lt;b&gt;Hello&lt;&#x2F;b&gt;" in
  fst (sanitizeInput (VString input) st) = escaped
  /\ escaped <> lit "Hello"
  /\ fst (removeDangerousPatterns (trim input) st) = input
  /\ escapeHtml input = escaped
  /\ matches re_tag escaped = false
  /\ strip_tags escaped = escaped.
Proof.
  cbv zeta. rewrite sanitizeInput_fst.
  unfold removeDangerousPatterns. rewrite forEach_replace_fst.
  repeat split; try (vm_compute; reflexivity).
  vm_compute. discriminate.
Qed.

(** C7: run on any value, with a method call on a non-string throwing as
    it does in JavaScript, [sanitizeInput] never throws: it returns the
    text of the typed embedding and leaves the same store, and for every
    value that is not a non-empty string that text is empty and the store
    untouched.  The guard is what makes it so: the body alone throws on
    every value that is not a string. *)
Theorem sanitizeInput_total (input : value) (st : store) :
  sanitizeInput_any input st
  = (Returns (fst (sanitizeInput input st)), snd (sanitizeInput input st))
  /\ (forall message, fst (sanitizeInput_any input st) <> Throws message)
  /\ match input with
     | VString (_ :: _) => True
     | _ => sanitizeInput_any input st = (Returns [], st)
            /\ sanitizeInput input st = ([], st)
     end
  /\ match input with
     | VString _ => True
     | _ => fst (sanitize_steps input st) = Throws TYPE_ERROR
     end.
Proof.
  assert (E : sanitizeInput_any input st
              = (Returns (fst (sanitizeInput input st)),
                 snd (sanitizeInput input st))).
  { unfold sanitizeInput_any, sanitizeInput, guard.
    destruct (negb (truthy input) || negb (is_string input)) eqn:G;
      [reflexivity|].
    destruct input as [| |b|n| |s]; cbn [is_string negb] in G;
      rewrite ?orb_true_r in G; try discriminate.
    unfold sanitize_steps, call_trim, bind.
    now destruct (removeDangerousPatterns (trim s) st). }
  split; [exact E|]. split; [rewrite E; discriminate|]. split.
  - rewrite E.
    destruct input as [| |b|n| |s]; try (split; reflexivity).
    + destruct b; split; reflexivity.
    + unfold sanitizeInput, guard. cbn [truthy is_string negb].
      rewrite orb_true_r. split; reflexivity.
    + destruct s; [split; reflexivity|exact I].
  - destruct input; exact I || reflexivity.
Qed.

(** C10: the throwing branch of [sanitizeNoteInput] is reachable.  On
    [dadata:ta:] the one pass of the [data:] pattern removes the inner
    token and leaves the outer pieces joined into [data:]; the sanitized
    text is judged unsafe and the function throws, from every store. *)
Theorem sanitizeNoteInput_can_throw :
  exists s : str,
    s = lit "dadata:ta:"
    /\ forall st : store,
        fst (sanitizeInput (VString s) st) = lit "data:"
        /\ includes_ci (lit "data:") (fst (sanitizeInput (VString s) st)) = true
        /\ fst (isInputSafe (VString (fst (sanitizeInput (VString s) st)))
                            (snd (sanitizeInput (VString s) st))) = false
        /\ fst (sanitizeNoteInput (VString s) st) = Throws INVALID_INPUT.
Proof.
  exists (lit "dadata:ta:"). split; [reflexivity|]. intros st.
  rewrite sanitizeNoteInput_fst, sanitizeInput_fst.
  assert (E : sanitized_text (VString (lit "dadata:ta:")) = lit "data:")
    by (vm_compute; reflexivity).
  rewrite E.
  assert (U : fst (isInputSafe (VString (lit "data:"))
                               (snd (sanitizeInput (VString (lit "dadata:ta:")) st)))
              = false).
  { apply isInputSafe_literals; [discriminate|]. vm_compute. reflexivity. }
  rewrite U. repeat split. 
Qed.

(** ** Global replacement *)

Section Replace.

Variable R : RegExp.

(** Replacing by the empty text only removes code units. *)
Lemma replace_go_incl :
  forall s prev skip, incl (replace_go R (fun _ => []) prev s skip) s.
Proof.
  induction s as [|c s IH]; intros prev skip x Hx.
  - cbn in Hx. destruct skip; [destruct (match_at R (prev, []))|]; assumption.
  - cbn [replace_go] in Hx. destruct skip as [|j].
    + destruct (match_at R (prev, c :: s)) as [[|j]|]; cbn [app In] in Hx.
      * destruct Hx as [->|Hx]; [now left|right; eapply IH; eassumption].
      * right; eapply IH; eassumption.
      * destruct Hx as [->|Hx]; [now left|right; eapply IH; eassumption].
    + right; eapply IH; eassumption.
Qed.

Lemma replace_incl (s : str) : incl (replace R (fun _ => []) s) s.
Proof. apply replace_go_incl. Qed.

(** Where the pattern matches at no position, the text is unchanged. *)
Lemma replace_go_id (f : str -> str) :
  forall s prev,
    (forall k p, match_at R (p, skipn k s) = None) ->
    replace_go R f prev s 0 = s.
Proof.
  induction s as [|c s IH]; intros prev H.
  - pose proof (H 0 prev) as H0. cbn [skipn] in H0. cbn. now rewrite H0.
  - pose proof (H 0 prev) as H0. cbn [skipn] in H0.
    cbn [replace_go]. rewrite H0.
    f_equal. apply IH. intros k p. apply (H (S k) p).
Qed.

Lemma replace_id (f : str -> str) (s : str) :
  (forall k p, match_at R (p, skipn k s) = None) -> replace R f s = s.
Proof. apply replace_go_id. Qed.

End Replace.

(** ** Entity escaping *)

Lemma one_step (p : code_unit -> bool) (prev : option code_unit)
      (c : code_unit) (s : str) (k : cursor -> option cursor) :
  one p (prev, c :: s) k = if p c then k (Some c, s) else None.
Proof. reflexivity. Qed.

Lemma match_at_special (prev : option code_unit) (c : code_unit) (s : str) :
  match_at re_special (prev, c :: s) = if is_special c then Some 1 else None.
Proof.
  unfold match_at, re_special. cbn [source ignoreCase m]. rewrite one_step.
  unfold chr_eq. fold (is_special c). destruct (is_special c); [|reflexivity].
  cbn [rest snd length]. f_equal. lia.
Qed.

Lemma match_at_special_nil (prev : option code_unit) :
  match_at re_special (prev, []) = None.
Proof. reflexivity. Qed.

(** [escapeHtml] is one scan that rewrites each special character on its
    own and copies the others. *)
Lemma escapeHtml_flat_map (text : str) :
  escapeHtml text
  = flat_map (fun c => if is_special c then entity_or_self [c] else [c]) text.
Proof.
  unfold escapeHtml, replace. fold entity_or_self.
  generalize (@None code_unit).
  induction text as [|c s IH]; intros prev; [reflexivity|].
  cbn [replace_go flat_map]. rewrite match_at_special.
  destruct (is_special c); cbn [firstn app]; now rewrite IH.
Qed.

Lemma is_special_cases (c : code_unit) :
  is_special c = true -> In c special_chars.
Proof.
  unfold is_special. rewrite existsb_exists.
  intros [x [Hx E]]. apply N.eqb_eq in E. now subst.
Qed.

Lemma is_raw_special (c : code_unit) : is_raw c = true -> is_special c = true.
Proof.
  unfold is_raw. rewrite existsb_exists. intros [x [Hx E]].
  apply N.eqb_eq in E. subst x.
  cbn in Hx. decompose [or] Hx; subst; try reflexivity; contradiction.
Qed.

Lemma entities_no_raw :
  Forall (fun kv => no_raw (snd kv)) HTML_ENTITIES.
Proof. repeat constructor. Qed.

Lemma entity_or_self_no_raw (c : code_unit) :
  is_special c = true -> no_raw (entity_or_self [c]).
Proof.
  intros H. apply is_special_cases in H.
  cbn in H. decompose [or] H; subst; try contradiction; repeat constructor.
Qed.

Lemma escapeHtml_no_raw (text : str) : no_raw (escapeHtml text).
Proof.
  rewrite escapeHtml_flat_map. unfold no_raw.
  induction text as [|c s IH]; [constructor|].
  cbn [flat_map]. apply Forall_app. split; [|exact IH].
  destruct (is_special c) eqn:E.
  - now apply entity_or_self_no_raw.
  - constructor; [|constructor].
    destruct (is_raw c) eqn:Rw; [|reflexivity].
    apply is_raw_special in Rw. congruence.
Qed.

Lemma no_raw_incl (a b : str) : incl a b -> no_raw b -> no_raw a.
Proof.
  unfold no_raw. rewrite !Forall_forall. intros H Hb x Hx. apply Hb, H, Hx.
Qed.

Lemma clamp_firstn (s : str) : clamp s = firstn MAX_LENGTH s.
Proof.
  unfold clamp, substring0.
  destruct (Nat.ltb_spec MAX_LENGTH (length s)); [reflexivity|].
  symmetry. now apply firstn_all2.
Qed.

Lemma clamp_incl (s : str) : incl (clamp s) s.
Proof.
  rewrite clamp_firstn. intros x Hx.
  rewrite <- (firstn_skipn MAX_LENGTH s). apply in_or_app. now left.
Qed.

Lemma strip_clamp_incl (s : str) : incl (clamp (strip_tags s)) s.
Proof.
  intros x Hx. apply (replace_incl re_tag), clamp_incl, Hx.
Qed.

Lemma sanitized_text_no_raw (input : value) : no_raw (sanitized_text input).
Proof.
  unfold sanitized_text. destruct (guard input) as [s|]; [|constructor].
  eapply no_raw_incl; [apply strip_clamp_incl|apply escapeHtml_no_raw].
Qed.

(** C9: the text returned by [sanitizeInput] holds none of the characters
    [<], [>], the two quotes, the backquote, [=] and [/]: [escapeHtml]
    leaves none of them, no entity holds one, and the tag strip and the
    clamp only remove code units.  The ampersand is not among them. *)
Theorem sanitizeInput_no_raw (input : value) (st : store) :
  no_raw (fst (sanitizeInput input st))
  /\ (forall text, no_raw (escapeHtml text))
  /\ Forall (fun kv => no_raw (snd kv)) HTML_ENTITIES
  /\ (forall text, incl (clamp (strip_tags text)) text)
  /\ is_raw (ch "&") = false
  /\ Forall (fun c => is_raw c = true)
        [ch "<"; ch ">"; dquote; ch "'"; ch "`"; ch "="; ch "/"].
Proof.
  rewrite sanitizeInput_fst. repeat split.
  - apply sanitized_text_no_raw.
  - apply escapeHtml_no_raw.
  - apply entities_no_raw.
  - apply strip_clamp_incl.
  - repeat constructor.
Qed.

(** ** Containment of tokens *)

Lemma includes_ci_head (x : code_unit) (l hay : str) :
  includes_ci (x :: l) hay = true ->
  exists y, In y hay /\ canon x = canon y.
Proof.
  induction hay as [|y h IH]; cbn [includes_ci prefix_ci]; intros H.
  - discriminate.
  - apply orb_true_iff in H. destruct H as [H|H].
    + apply andb_true_iff in H. destruct H as [H _]. apply N.eqb_eq in H.
      exists y. split; [now left|exact H].
    + destruct (IH H) as [z [Hz E]]. exists z. split; [now right|exact E].
Qed.

Lemma canon_lt (y : code_unit) : canon (ch "<") = canon y -> y = ch "<".
Proof.
  unfold canon, ch. cbn [N_of_ascii]. cbn.
  destruct ((97 <=? y) && (y <=? 122))%N eqn:E; [|congruence].
  apply andb_true_iff in E. destruct E as [E1 E2].
  apply N.leb_le in E1. lia.
Qed.

Lemma no_raw_no_tag_token (l out : str) :
  no_raw out -> includes_ci (ch "<" :: l) out = false.
Proof.
  intros H. destruct (includes_ci (ch "<" :: l) out) eqn:E; [|reflexivity].
  apply includes_ci_head in E. destruct E as [y [Hy E]].
  apply canon_lt in E. subst y.
  unfold no_raw in H. rewrite Forall_forall in H.
  specialize (H _ Hy). discriminate.
Qed.

(** X21: the text returned by [sanitizeInput] never holds [<script] nor
    [<iframe], in any letter case, since it holds no [<] at all. *)
Theorem sanitizeInput_no_tag_tokens (input : value) (st : store) :
  includes_ci (lit "<script") (fst (sanitizeInput input st)) = false
  /\ includes_ci (lit "<iframe") (fst (sanitizeInput input st)) = false.
Proof.
  rewrite sanitizeInput_fst.
  split; apply no_raw_no_tag_token, sanitized_text_no_raw.
Qed.

(** C1: the code does not keep the two scheme tokens out of its result.
    Each pattern is applied in one pass that is not repeated: over
    [javajavascript:script:] the pass of the [javascript:] pattern removes
    the inner token and joins the outer pieces into [javascript:], which no
    later step touches; [vbvbscript:script:] gives [vbscript:] the same
    way.  This holds whatever the [lastIndex] slots hold. *)
Theorem sanitizeInput_scheme_survives (st : store) :
  fst (sanitizeInput (VString (lit "javajavascript:script:")) st)
  = lit "javascript:"
  /\ fst (sanitizeInput (VString (lit "vbvbscript:script:")) st)
     = lit "vbscript:"
  /\ includes_ci (lit "javascript:")
       (fst (sanitizeInput (VString (lit "javajavascript:script:")) st)) = true
  /\ includes_ci (lit "vbscript:")
       (fst (sanitizeInput (VString (lit "vbvbscript:script:")) st)) = true
  /\ ~ no_dangerous_tokens
        (fst (sanitizeInput (VString (lit "javajavascript:script:")) st))
  /\ ~ no_dangerous_tokens
        (fst (sanitizeInput (VString (lit "vbvbscript:script:")) st)).
Proof.
  rewrite !sanitizeInput_fst.
  assert (J : sanitized_text (VString (lit "javajavascript:script:"))
              = lit "javascript:") by (vm_compute; reflexivity).
  assert (V : sanitized_text (VString (lit "vbvbscript:script:"))
              = lit "vbscript:") by (vm_compute; reflexivity).
  rewrite J, V.
  split; [reflexivity|]. split; [reflexivity|].
  split; [reflexivity|]. split; [reflexivity|]. split.
  - intros [_ [_ [H _]]]. vm_compute in H. discriminate.
  - intros [_ [_ [_ H]]]. vm_compute in H. discriminate.
Qed.

(** ** What a match needs *)

Section Matcher.

Variable ic : bool.

Lemma suffix_refl (a : str) : suffix a a.
Proof. now exists []. Qed.

Lemma suffix_trans (a b c : str) : suffix a b -> suffix b c -> suffix a c.
Proof.
  intros [p ->] [q ->]. exists (q ++ p). now rewrite app_assoc.
Qed.

Lemma suffix_In (a b : str) (c : code_unit) : suffix a b -> In c a -> In c b.
Proof. intros [p ->] H. apply in_or_app. now right. Qed.

Lemma one_suffix (p : code_unit -> bool) (x : cursor)
      (k : cursor -> option cursor) (z : cursor) :
  one p x k = Some z ->
  exists d s, rest x = d :: s /\ p d = true /\ k (Some d, s) = Some z.
Proof.
  unfold one, step. destruct (rest x) as [|d s]; [discriminate|].
  destruct (p d) eqn:E; [|discriminate]. intros H. now exists d, s.
Qed.

Ltac by_one H :=
  apply one_suffix in H; destruct H as [d [s [E [_ H]]]];
  exists (Some d, s); split; [exact H|];
  cbn [rest snd]; rewrite E; now exists [d].

(** A successful match hands its continuation a position further on in the
    subject, and the continuation succeeds there. *)
Lemma m_suffix (r : re) :
  forall x k z,
    m ic r x k = Some z ->
    exists y, k y = Some z /\ suffix (rest y) (rest x).
Proof.
  induction r as [c|c|cs| | | |r1 IH1|r1 IH1 r2 IH2|r1 IH1 r2 IH2|r1 IH1];
    intros x k z H; cbn [m] in H.
  - by_one H.
  - by_one H.
  - by_one H.
  - by_one H.
  - by_one H.
  - destruct (xorb _ _); [|discriminate].
    exists x. split; [exact H|apply suffix_refl].
  - destruct (m ic r1 x _); [discriminate|].
    exists x. split; [exact H|apply suffix_refl].
  - apply IH1 in H. destruct H as [y1 [H S1]].
    apply IH2 in H. destruct H as [y2 [H S2]].
    exists y2. split; [exact H|]. eapply suffix_trans; eassumption.
  - destruct (m ic r1 x k) as [z1|] eqn:E.
    + injection H as <-. now apply IH1.
    + now apply IH2.
  - revert H. generalize (S (length (rest x))). intros n. revert x.
    induction n as [|n IHn]; intros x H; cbn [repeat_matcher] in H.
    + exists x. split; [exact H|apply suffix_refl].
    + destruct (m ic r1 x _) as [z1|] eqn:E.
      * injection H as <-. apply IH1 in E. destruct E as [y [E S1]].
        destruct (length (rest y) =? length (rest x)); [discriminate|].
        apply IHn in E. destruct E as [y' [E S2]].
        exists y'. split; [exact E|]. eapply suffix_trans; eassumption.
      * exists x. split; [exact H|apply suffix_refl].
Qed.

(** A match of a pattern that ends with the character [c] needs a code
    unit equal to [c], up to the flag, in the subject. *)
Lemma m_then_chr (r : re) (c : code_unit) (x z : cursor)
      (k : cursor -> option cursor) :
  m ic (Seq r (Chr c)) x k = Some z ->
  exists d, In d (rest x) /\ chr_eq ic c d = true.
Proof.
  cbn [m]. intros H. apply m_suffix in H. destruct H as [y [H S1]].
  apply one_suffix in H. destruct H as [d [s [E [P _]]]].
  exists d. split; [|exact P].
  eapply suffix_In; [exact S1|]. rewrite E. now left.
Qed.

(** A match of a pattern that starts with a literal needs the first
    character of the literal at the position of the match. *)
Lemma m_lit_head (c : code_unit) (l : str) (r : re) (x z : cursor)
      (k : cursor -> option cursor) :
  m ic (Seq (Lit (c :: l)) r) x k = Some z ->
  exists d s, rest x = d :: s /\ chr_eq ic c d = true.
Proof.
  cbn [m Lit]. destruct l as [|c' l]; cbn [m]; intros H;
    apply one_suffix in H; destruct H as [d [s [E [P _]]]]; now exists d, s.
Qed.

End Matcher.

(** A literal under the [i] flag matches exactly where the subject has it
    as a prefix, up to ASCII case. *)
Lemma m_lit_prefix (l : str) :
  forall x k z,
    m true (Lit l) x k = Some z -> prefix_ci l (rest x) = true.
Proof.
  induction l as [|c l IH]; intros x k z H; [reflexivity|].
  destruct l as [|c' l].
  - cbn [Lit m] in H. apply one_suffix in H.
    destruct H as [d [s [E [P _]]]]. rewrite E. cbn [prefix_ci].
    unfold chr_eq in P. now rewrite P.
  - change (Lit (c :: c' :: l)) with (Seq (Chr c) (Lit (c' :: l))) in H.
    cbn [m] in H. apply one_suffix in H.
    destruct H as [d [s [E [P H]]]]. rewrite E.
    change (prefix_ci (c :: c' :: l) (d :: s))
      with ((canon c =? canon d)%N && prefix_ci (c' :: l) s).
    unfold chr_eq in P. rewrite P. apply IH in H. exact H.
Qed.

Lemma prefix_m_lit (l : str) :
  l <> [] ->
  forall p s k,
    prefix_ci l s = true -> exists y, m true (Lit l) (p, s) k = k y.
Proof.
  induction l as [|c l IH]; intros Hl p s k H; [congruence|].
  destruct s as [|d s]; [discriminate|].
  cbn [prefix_ci] in H. apply andb_true_iff in H. destruct H as [P H].
  destruct l as [|c' l].
  - cbn [Lit m]. rewrite one_step. unfold chr_eq. rewrite P. now eexists.
  - change (Lit (c :: c' :: l)) with (Seq (Chr c) (Lit (c' :: l))).
    cbn [m]. rewrite one_step. unfold chr_eq. rewrite P.
    apply IH; [discriminate|exact H].
Qed.

(** ** Trimming *)

Lemma drop_space_suffix (s : str) : suffix (drop_space s) s.
Proof.
  induction s as [|c s IH]; [apply suffix_refl|].
  cbn [drop_space]. destruct (is_space c); [|apply suffix_refl].
  destruct IH as [p E]. exists (c :: p). cbn. now rewrite <- E.
Qed.

Lemma drop_space_head (s : str) :
  match drop_space s with
  | [] => True
  | c :: _ => is_space c = false
  end.
Proof.
  induction s as [|c s IH]; [exact I|].
  cbn [drop_space]. destruct (is_space c) eqn:E; [exact IH|exact E].
Qed.

Lemma drop_space_fixed (s : str) :
  match s with [] => True | c :: _ => is_space c = false end ->
  drop_space s = s.
Proof. destruct s as [|c s]; [reflexivity|]. cbn. now intros ->. Qed.

(** The trimmed text sits inside the text. *)
Lemma trim_infix (s : str) : exists a b, s = a ++ trim s ++ b.
Proof.
  unfold trim.
  destruct (drop_space_suffix s) as [a Ea].
  destruct (drop_space_suffix (rev (drop_space s))) as [b Eb].
  exists a, (rev b).
  rewrite <- rev_app_distr, <- Eb, rev_involutive. exact Ea.
Qed.

Lemma trim_length (s : str) : length (trim s) <= length s.
Proof.
  destruct (trim_infix s) as [a [b E]].
  rewrite E at 2. rewrite !length_app. lia.
Qed.

Lemma trim_incl (s : str) : incl (trim s) s.
Proof.
  destruct (trim_infix s) as [a [b E]]. intros x Hx.
  rewrite E. apply in_or_app. right. apply in_or_app. now left.
Qed.

Lemma trim_head (s : str) :
  match trim s with [] => True | c :: _ => is_space c = false end.
Proof.
  unfold trim.
  destruct (drop_space_suffix (rev (drop_space s))) as [b Eb].
  pose proof (drop_space_head s) as H.
  apply (f_equal (@rev N)) in Eb.
  rewrite rev_involutive, rev_app_distr in Eb.
  destruct (rev (drop_space (rev (drop_space s)))) as [|c t]; [exact I|].
  rewrite Eb in H. exact H.
Qed.

(** Trimming a trimmed text changes nothing. *)
Lemma trim_trim (s : str) : trim (trim s) = trim s.
Proof.
  pose proof (trim_head s) as H.
  unfold trim at 1. rewrite (drop_space_fixed _ H).
  unfold trim. rewrite rev_involutive.
  rewrite (drop_space_fixed _ (drop_space_head _)). reflexivity.
Qed.

(** ** Containment and scanning *)

Lemma prefix_ci_app (l s b : str) :
  prefix_ci l s = true -> prefix_ci l (s ++ b) = true.
Proof.
  revert s. induction l as [|c l IH]; intros s H; [reflexivity|].
  destruct s as [|d s]; [discriminate|].
  cbn [prefix_ci app] in H |- *. apply andb_true_iff in H.
  destruct H as [P H]. now rewrite P, IH.
Qed.

Lemma includes_ci_app_r (l s b : str) :
  includes_ci l s = true -> includes_ci l (s ++ b) = true.
Proof.
  induction s as [|d s IH]; intros H.
  - cbn [includes_ci] in H. rewrite orb_false_r in H.
    destruct l; [|discriminate]. now destruct b.
  - cbn [includes_ci app] in H |- *. apply orb_true_iff in H.
    destruct H as [H|H].
    + change (d :: s ++ b) with ((d :: s) ++ b).
      now rewrite prefix_ci_app.
    + rewrite IH by exact H. apply orb_true_r.
Qed.

Lemma includes_ci_app_l (l a s : str) :
  includes_ci l s = true -> includes_ci l (a ++ s) = true.
Proof.
  intros H. induction a as [|d a IH]; [exact H|].
  cbn [includes_ci app]. rewrite IH. apply orb_true_r.
Qed.

Lemma includes_ci_skipn (l s : str) (k : nat) :
  prefix_ci l (skipn k s) = true -> includes_ci l s = true.
Proof.
  intros H. rewrite <- (firstn_skipn k s). apply includes_ci_app_l.
  destruct (skipn k s); cbn [includes_ci]; now rewrite H.
Qed.

Lemma includes_ci_trim (l s : str) :
  includes_ci l (trim s) = true -> includes_ci l s = true.
Proof.
  intros H. destruct (trim_infix s) as [a [b E]]. rewrite E.
  now apply includes_ci_app_l, includes_ci_app_r.
Qed.

(** A scheme pattern matches in a text that contains the token. *)
Lemma matches_scheme (token : string) (s : str) :
  lit token <> [] ->
  includes_ci (lit token) s = true -> matches (scheme token) s = true.
Proof.
  intros Hl H. unfold matches, test_literal, test, exec.
  cbn [length Nat.ltb Nat.leb cursor_at fst snd].
  assert (G : forall s prev i,
             includes_ci (lit token) s = true ->
             scan (scheme token) prev s i <> None).
  { clear s H. induction s as [|d s IH]; intros prev i H; cbn [scan];
      destruct (match_at (scheme token) (prev, _)) as [n|] eqn:E;
      try discriminate;
      unfold match_at, scheme in E; cbn [source ignoreCase] in E;
      cbn [includes_ci] in H.
    - exfalso. rewrite orb_false_r in H.
      destruct (prefix_m_lit (lit token) Hl prev [] (fun y => Some y) H)
        as [y Ey].
      rewrite Ey in E. discriminate.
    - apply orb_true_iff in H. destruct H as [H|H].
      + exfalso.
        destruct (prefix_m_lit (lit token) Hl prev (d :: s)
                               (fun y => Some y) H) as [y Ey].
        rewrite Ey in E. discriminate.
      + now apply IH. }
  specialize (G s None 0 H).
  destruct s; cbn [cursor_at fst snd];
    (destruct (scan (scheme token) None _ 0) as [[a e]|];
     [reflexivity|congruence]).
Qed.

(** ** Texts in which nothing matches *)

Lemma canon_low (c d : code_unit) :
  (c < 65)%N -> canon c = canon d -> d = c.
Proof.
  unfold canon. intros Hc.
  destruct ((97 <=? c) && (c <=? 122))%N eqn:Ec;
    destruct ((97 <=? d) && (d <=? 122))%N eqn:Ed;
    try (apply andb_true_iff in Ec; destruct Ec as [Ec _];
         apply N.leb_le in Ec);
    try (apply andb_true_iff in Ed; destruct Ed as [Ed _];
         apply N.leb_le in Ed);
    intros E; lia.
Qed.

Lemma chr_eq_low (ic : bool) (c d : code_unit) :
  (c < 65)%N -> chr_eq ic c d = true -> d = c.
Proof.
  unfold chr_eq. intros Hc H. destruct ic; apply N.eqb_eq in H.
  - now apply canon_low.
  - now symmetry.
Qed.

Lemma m_seq (ic : bool) (r1 r2 : re) (x : cursor)
      (k : cursor -> option cursor) :
  m ic (Seq r1 r2) x k = m ic r1 x (fun y => m ic r2 y k).
Proof. reflexivity. Qed.

Lemma m_chr_head (ic : bool) (c : code_unit) (r : re) (x z : cursor)
      (k : cursor -> option cursor) :
  m ic (Seq (Chr c) r) x k = Some z ->
  exists d s, rest x = d :: s /\ chr_eq ic c d = true.
Proof.
  rewrite m_seq. cbn [m]. intros H. apply one_suffix in H.
  destruct H as [d [s [E [P _]]]]. now exists d, s.
Qed.

Lemma In_skipn (k : nat) (s : str) (c : code_unit) :
  In c (skipn k s) -> In c s.
Proof.
  intros H. rewrite <- (firstn_skipn k s). apply in_or_app. now right.
Qed.

Lemma tag_block_needs_lt (name : string) (p : option code_unit) (s : str) :
  ~ In (ch "<") s -> match_at (tag_block name) (p, s) = None.
Proof.
  intros Hs. unfold match_at, tag_block. cbn [source ignoreCase Cat].
  destruct (m true _ (p, s) _) as [z|] eqn:E; [exfalso|reflexivity].
  change (lit "<" ++ lit name) with (ch "<" :: lit name) in E.
  apply m_lit_head in E. destruct E as [d [s' [E P]]].
  apply chr_eq_low in P; [|reflexivity]. subst d.
  cbn [rest snd] in E. subst s. apply Hs. now left.
Qed.

Lemma on_handler_needs_eq (p : option code_unit) (s : str) :
  ~ In (ch "=") s -> match_at on_handler (p, s) = None.
Proof.
  intros Hs. unfold match_at, on_handler. cbn [source ignoreCase Cat].
  destruct (m true _ (p, s) _) as [z|] eqn:E; [exfalso|reflexivity].
  rewrite m_seq in E. apply m_suffix in E. destruct E as [y1 [E S1]].
  rewrite m_seq in E. apply m_suffix in E. destruct E as [y2 [E S2]].
  apply m_then_chr in E. destruct E as [d [Hd P]].
  apply chr_eq_low in P; [|reflexivity]. subst d.
  apply Hs. eapply suffix_In; [exact S1|].
  eapply suffix_In; [exact S2|exact Hd].
Qed.

Lemma re_tag_needs_lt (p : option code_unit) (s : str) :
  ~ In (ch "<") s -> match_at re_tag (p, s) = None.
Proof.
  intros Hs. unfold match_at, re_tag. cbn [source ignoreCase Cat].
  destruct (m false _ (p, s) _) as [z|] eqn:E; [exfalso|reflexivity].
  apply m_chr_head in E. destruct E as [d [s' [E P]]].
  apply chr_eq_low in P; [|reflexivity]. subst d.
  cbn [rest snd] in E. subst s. apply Hs. now left.
Qed.

Lemma scheme_needs_token (token : string) (p : option code_unit) (s : str)
      (k : nat) :
  lit token <> [] ->
  matches (scheme token) s = false ->
  match_at (scheme token) (p, skipn k (trim s)) = None.
Proof.
  intros Hl Hs. unfold match_at. cbn [scheme source ignoreCase].
  destruct (m true _ _ _) as [z|] eqn:E; [exfalso|reflexivity].
  apply m_lit_prefix in E. cbn [rest snd] in E.
  apply includes_ci_skipn, includes_ci_trim in E.
  apply (matches_scheme token s Hl) in E. congruence.
Qed.

Lemma remove_all_id (ps : list RegExp) (t : str) :
  (forall R, In R ps -> forall k p, match_at R (p, skipn k t) = None) ->
  remove_all ps t = t.
Proof.
  unfold remove_all. induction ps as [|R ps IH]; intros H; [reflexivity|].
  cbn [fold_left]. rewrite replace_id by (apply H; now left).
  apply IH. intros R' HR'. apply H. now right.
Qed.

Lemma not_special_not_In (s : str) (c : code_unit) :
  forallb (fun c => negb (is_special c)) s = true ->
  is_special c = true -> ~ In c s.
Proof.
  intros H Hc Hin. rewrite forallb_forall in H. specialize (H c Hin).
  rewrite Hc in H. discriminate.
Qed.

Lemma escapeHtml_id (t : str) :
  forallb (fun c => negb (is_special c)) t = true -> escapeHtml t = t.
Proof.
  rewrite escapeHtml_flat_map.
  induction t as [|c t IH]; [reflexivity|]. cbn [forallb flat_map].
  intros H. apply andb_true_iff in H. destruct H as [Hc H].
  apply negb_true_iff in Hc. rewrite Hc, IH by exact H. reflexivity.
Qed.

Lemma dangerous_patterns_silent (s : str) :
  safe_text s = true ->
  forall R, In R DANGEROUS_PATTERNS ->
            forall k p, match_at R (p, skipn k (trim s)) = None.
Proof.
  unfold safe_text. intros H. apply andb_true_iff in H. destruct H as [Hc Hp].
  assert (Hlt : forall k, ~ In (ch "<") (skipn k (trim s))).
  { intros k Hin. apply In_skipn, trim_incl in Hin.
    now apply (not_special_not_In s (ch "<") Hc). }
  assert (Heq : forall k, ~ In (ch "=") (skipn k (trim s))).
  { intros k Hin. apply In_skipn, trim_incl in Hin.
    now apply (not_special_not_In s (ch "=") Hc). }
  rewrite forallb_forall in Hp.
  assert (Hm : forall R, In R DANGEROUS_PATTERNS -> matches R s = false).
  { intros R HR. apply negb_true_iff. now apply Hp. }
  intros R HR k p. pose proof (Hm R HR) as HmR.
  cbn [DANGEROUS_PATTERNS In] in HR.
  destruct HR as [<-|[<-|[<-|[<-|[<-|[<-|[<-|[<-|[<-|[<-|[<-|[]]]]]]]]]]]];
    try (apply tag_block_needs_lt, Hlt);
    try (apply scheme_needs_token; [discriminate|exact HmR]).
  apply on_handler_needs_eq, Heq.
Qed.

(** A non-special text that trimming leaves alone and in which no
    dangerous pattern matches anywhere goes through [sanitizeInput]
    untouched up to the clamp. *)
Lemma sanitized_text_silent (t : str) :
  trim t = t ->
  forallb (fun c => negb (is_special c)) t = true ->
  (forall R, In R DANGEROUS_PATTERNS ->
             forall k p, match_at R (p, skipn k t) = None) ->
  sanitized_text (VString t) = clamp t.
Proof.
  intros Ht Hc Hp. unfold sanitized_text.
  destruct t as [|c l]; [reflexivity|].
  cbn [guard truthy is_string negb orb]. rewrite Ht.
  rewrite remove_all_id by exact Hp.
  rewrite escapeHtml_id by exact Hc.
  unfold strip_tags. rewrite replace_id; [reflexivity|].
  intros k p. apply re_tag_needs_lt. intros Hin. apply In_skipn in Hin.
  now apply (not_special_not_In (c :: l) (ch "<") Hc).
Qed.

(** C5: on a text of at most 5000 code units that holds no special
    character and in which no dangerous pattern matches, [sanitizeInput] of
    the trimmed text is the trimmed text. *)
Theorem sanitizeInput_identity_on_safe (s : str) (st : store) :
  length s <= MAX_LENGTH ->
  safe_text s = true ->
  fst (sanitizeInput (VString (trim s)) st) = trim s.
Proof.
  intros Hlen Hsafe. rewrite sanitizeInput_fst.
  rewrite sanitized_text_silent.
  - unfold clamp. pose proof (trim_length s) as Ht.
    destruct (Nat.ltb_spec MAX_LENGTH (length (trim s))); [|reflexivity].
    exfalso. apply (Nat.lt_irrefl MAX_LENGTH).
    eapply Nat.lt_le_trans; [eassumption|].
    eapply Nat.le_trans; eassumption.
  - apply trim_trim.
  - unfold safe_text in Hsafe. apply andb_true_iff in Hsafe.
    destruct Hsafe as [Hc _].
    rewrite forallb_forall in Hc |- *. intros x Hx. apply Hc, trim_incl, Hx.
  - apply dangerous_patterns_silent, Hsafe.
Qed.

(** The identity on safe text, at a note with blanks around it. *)
Lemma sanitizeInput_identity_on_safe_witness :
  length (lit "  plain note, 2 items  ") <= MAX_LENGTH
  /\ safe_text (lit "  plain note, 2 items  ") = true
  /\ fst (sanitizeInput (VString (trim (lit "  plain note, 2 items  "))) fresh)
     = trim (lit "  plain note, 2 items  ").
Proof.
  assert (L : length (lit "  plain note, 2 items  ") <= MAX_LENGTH)
    by (apply Nat.leb_le; vm_compute; reflexivity).
  assert (S : safe_text (lit "  plain note, 2 items  ") = true)
    by (vm_compute; reflexivity).
  split; [exact L|]. split; [exact S|].
  exact (sanitizeInput_identity_on_safe (lit "  plain note, 2 items  ") fresh L S).
Defined.

(** ** The loop counter of the repetition is never exhausted *)

Section Counter.

Variable ic : bool.

(** The matcher consults its continuation only at positions that are not
    before the one it starts from. *)
Lemma m_ext (r : re) :
  forall x k k',
    (forall y, length (rest y) <= length (rest x) -> k y = k' y) ->
    m ic r x k = m ic r x k'.
Proof.
  induction r as [c|c|cs| | | |r1 IH1|r1 IH1 r2 IH2|r1 IH1 r2 IH2|r1 IH1];
    intros x k k' H; cbn [m];
    try (unfold one, step; destruct (rest x) as [|d s] eqn:E;
         [reflexivity|];
         match goal with |- context [if ?b then _ else _] => destruct b end;
         [apply H; cbn [rest snd length]; lia|reflexivity]).
  - now rewrite (H x (Nat.le_refl _)).
  - now rewrite (H x (Nat.le_refl _)).
  - apply IH1. intros y Hy. apply IH2. intros y' Hy'. apply H. lia.
  - rewrite (IH1 x k k' H), (IH2 x k k' H). reflexivity.
  - generalize (S (length (rest x))). intros n.
    assert (G : forall y, length (rest y) <= length (rest x) ->
                          repeat_matcher (m ic r1) k n y
                          = repeat_matcher (m ic r1) k' n y);
      [|apply G, Nat.le_refl].
    induction n as [|n IHn]; intros y Hy; cbn [repeat_matcher].
    + now apply H.
    + rewrite (H y Hy).
      rewrite (IH1 y _ (fun y0 => if length (rest y0) =? length (rest y)
                                  then None
                                  else repeat_matcher (m ic r1) k' n y0));
        [reflexivity|].
      intros y0 Hy0. destruct (length (rest y0) =? length (rest y));
        [reflexivity|]. apply IHn. lia.
Qed.

(** Any counter above the number of code units left gives the same
    result: the counter only makes the recursion structural. *)
Lemma repeat_matcher_counter (r : re) (k : cursor -> option cursor) :
  forall n x,
    length (rest x) < n ->
    repeat_matcher (m ic r) k (S n) x = repeat_matcher (m ic r) k n x.
Proof.
  induction n as [|n IHn]; intros x Hx; [lia|].
  cbn [repeat_matcher].
  rewrite (m_ext r x _
             (fun y => if length (rest y) =? length (rest x)
                       then None else repeat_matcher (m ic r) k n y));
    [reflexivity|].
  intros y Hy. destruct (Nat.eqb_spec (length (rest y)) (length (rest x)));
    [reflexivity|].
  change (repeat_matcher (m ic r) k (S n) y = repeat_matcher (m ic r) k n y).
  apply IHn. lia.
Qed.

End Counter.

(** ** The verdict on a store with every slot at 0 *)

Lemma test_zero (R : RegExp) (s : str) :
  test R 0 s = (matches R s, snd (test R 0 s))
  /\ (matches R s = false -> snd (test R 0 s) = 0).
Proof.
  unfold matches, test_literal, test.
  destruct (exec R 0 s) as [[a e]|]; split; try reflexivity; discriminate.
Qed.

Lemma for_of_test_zero (ps : list RegExp) (s : str) :
  forall i st,
    (forall j, st j = 0) ->
    fst (for_of_test i ps s st) = existsb (fun R => matches R s) ps.
Proof.
  induction ps as [|R ps IH]; intros i st Z; [reflexivity|].
  cbn [for_of_test existsb]. unfold bind, test_pattern. rewrite Z.
  destruct (test_zero R s) as [E F]. rewrite E.
  destruct (matches R s); [reflexivity|].
  cbn [orb]. apply IH. intros j. unfold set_lastIndex.
  destruct (j =? i); [now apply F|apply Z].
Qed.

(** On a non-empty text and fresh slots, [isInputSafe] says safe exactly
    when no dangerous pattern, no tag and neither scheme of the last check
    matches. *)
Lemma isInputSafe_fresh (c : code_unit) (s : str) :
  fst (isInputSafe (VString (c :: s)) fresh)
  = negb (existsb (fun R => matches R (c :: s)) DANGEROUS_PATTERNS
          || matches re_tag (c :: s) || matches re_js_data (c :: s)).
Proof.
  unfold isInputSafe. cbn [guard truthy is_string negb orb]. unfold bind.
  pose proof (for_of_test_zero DANGEROUS_PATTERNS (c :: s) 0 fresh
                               (fun _ => eq_refl)) as H.
  destruct (for_of_test 0 DANGEROUS_PATTERNS (c :: s) fresh) as [hit st1].
  cbn [fst] in H. rewrite <- H. unfold matches.
  destruct hit; [reflexivity|]. cbn [orb].
  destruct (test_literal re_tag (c :: s)); [reflexivity|].
  destruct (test_literal re_js_data (c :: s)); reflexivity.
Qed.

(** A text that [sanitizeNoteInput] returns holds none of the three
    scheme tokens: the check on the sanitized text catches what the single
    passes of [removeDangerousPatterns] may have joined. *)
Lemma sanitizeNoteInput_returns_clean (input : value) (st : store) (t : str) :
  fst (sanitizeNoteInput input st) = Returns t ->
  includes_ci (lit "javascript:") t = false
  /\ includes_ci (lit "vbscript:") t = false
  /\ includes_ci (lit "data:") t = false.
Proof.
  rewrite sanitizeNoteInput_fst, isInputSafe_after_sanitize.
  destruct (fst (isInputSafe _ fresh)) eqn:E; [|discriminate].
  intros H. injection H as <-.
  destruct (sanitized_text input) as [|c s]; [now vm_compute|].
  rewrite isInputSafe_fresh in E. apply negb_true_iff in E.
  apply orb_false_iff in E. destruct E as [E _].
  apply orb_false_iff in E. destruct E as [E _].
  assert (G : forall token, In (scheme token) DANGEROUS_PATTERNS ->
                            lit token <> [] ->
                            includes_ci (lit token) (c :: s) = false).
  { intros token Hin Hl.
    destruct (includes_ci (lit token) (c :: s)) eqn:I; [|reflexivity].
    apply (matches_scheme token _ Hl) in I.
    assert (X : existsb (fun R => matches R (c :: s)) DANGEROUS_PATTERNS = true)
      by (apply existsb_exists; eexists; split; eassumption).
    congruence. }
  repeat split; apply G; try discriminate; cbn [DANGEROUS_PATTERNS In]; tauto.
Qed.

(** ** The length clamp *)

Lemma trim_no_space (s : str) :
  (forall c, In c s -> is_space c = false) -> trim s = s.
Proof.
  intros H. unfold trim.
  rewrite (drop_space_fixed s).
  - rewrite (drop_space_fixed (rev s)); [apply rev_involutive|].
    destruct (rev s) as [|c l] eqn:E; [exact I|].
    apply H, in_rev. rewrite E. now left.
  - destruct s as [|c l]; [exact I|]. apply H. now left.
Qed.

Lemma scheme_needs_head (c : code_unit) (l : str) (p : option code_unit)
      (s : str) (n : nat) :
  match_at (mkRegExp (Lit (c :: l)) true) (p, s) = Some n ->
  exists d, In d s /\ canon c = canon d.
Proof.
  unfold match_at. cbn [source ignoreCase].
  destruct (m true _ _ _) as [z|] eqn:E; [|discriminate]. intros _.
  apply m_lit_prefix in E. cbn [rest snd] in E.
  destruct s as [|d s]; [discriminate|]. cbn [prefix_ci] in E.
  apply andb_true_iff in E. destruct E as [E _]. apply N.eqb_eq in E.
  exists d. split; [now left|exact E].
Qed.

(** A run of the letter [a] is left alone by every step but the clamp. *)
Lemma letters_a_sanitized (n : nat) :
  sanitized_text (VString (repeat (ch "a") n)) = clamp (repeat (ch "a") n).
Proof.
  assert (A : forall k c, In c (skipn k (repeat (ch "a") n)) -> c = ch "a").
  { intros k c H. apply In_skipn, repeat_spec in H. exact H. }
  apply sanitized_text_silent.
  - apply trim_no_space. intros c H. now rewrite (A 0 c H).
  - apply forallb_forall. intros c H. now rewrite (A 0 c H).
  - intros R HR k p. cbn [DANGEROUS_PATTERNS In] in HR.
    destruct HR as [<-|[<-|[<-|[<-|[<-|[<-|[<-|[<-|[<-|[<-|[<-|[]]]]]]]]]]]];
      try (apply tag_block_needs_lt; intros H; apply A in H; discriminate);
      try (destruct (match_at _ _) as [j|] eqn:E; [exfalso|reflexivity];
           apply scheme_needs_head in E; destruct E as [d [Hd E]];
           apply A in Hd; subst d; vm_compute in E; discriminate).
    apply on_handler_needs_eq. intros H. apply A in H. discriminate.
Qed.

(** C6: the returned text is the first [MAX_LENGTH] code units of the
    text that reaches the clamp, so its length is the smaller of the two;
    6000 letters [a] come back as 5000. *)
Theorem sanitizeInput_clamped (input : value) (st : store) :
  let out := fst (sanitizeInput input st) in
  MAX_LENGTH = 5000
  /\ length out <= MAX_LENGTH
  /\ match guard input with
     | Some s =>
         let mid := strip_tags (escapeHtml
                      (fst (removeDangerousPatterns (trim s) st))) in
         out = firstn MAX_LENGTH mid
         /\ length out = Nat.min MAX_LENGTH (length mid)
         /\ (if MAX_LENGTH <? length mid then length out = MAX_LENGTH
             else out = mid)
     | None => out = []
     end
  /\ fst (sanitizeInput (VString (repeat (ch "a") (N.to_nat 6000))) st)
     = repeat (ch "a") (N.to_nat 5000).
Proof.
  cbv zeta. rewrite !sanitizeInput_fst.
  split; [reflexivity|]. split; [|split].
  - unfold sanitized_text. destruct (guard input); [|apply Nat.le_0_l].
    rewrite clamp_firstn. apply firstn_le_length.
  - unfold removeDangerousPatterns. unfold sanitized_text.
    destruct (guard input) as [s|]; [|reflexivity].
    rewrite forEach_replace_fst.
    set (mid := strip_tags _).
    split; [|split].
    + apply clamp_firstn.
    + rewrite clamp_firstn. apply length_firstn.
    + unfold clamp, substring0.
      destruct (Nat.ltb_spec MAX_LENGTH (length mid)); [|reflexivity].
      rewrite length_firstn. now apply Nat.min_l, Nat.lt_le_incl.
  - rewrite letters_a_sanitized. vm_compute. reflexivity.
Qed.

(** * Further properties of the functions *)

(** ** [escapeHtml] *)

Section Escape.

Local Abbreviation esc := escape_unit.

Lemma esc_special (c : code_unit) :
  is_special c = true ->
  esc c = entity_or_self [c]
  /\ 4 <= length (esc c) <= 6
  /\ hd_error (esc c) = Some (ch "&").
Proof.
  intros H. unfold esc. rewrite H. apply is_special_cases in H.
  cbn in H. decompose [or] H; subst; try contradiction;
    (split; [reflexivity|split; [cbn; lia|reflexivity]]).
Qed.

Lemma esc_plain (c : code_unit) : is_special c = false -> esc c = [c].
Proof. intros H. unfold esc. now rewrite H. Qed.

Lemma esc_length (c : code_unit) : 1 <= length (esc c) <= 6.
Proof.
  destruct (is_special c) eqn:E.
  - destruct (esc_special c E) as [_ [L _]]. lia.
  - rewrite (esc_plain c E). cbn. lia.
Qed.

(** Two code units whose escapes start two equal texts are equal, and so
    are the rests. *)
Lemma esc_cancel (c d : code_unit) (A B : str) :
  esc c ++ A = esc d ++ B -> c = d /\ A = B.
Proof.
  destruct (is_special c) eqn:Ec; destruct (is_special d) eqn:Ed.
  - unfold esc. rewrite Ec, Ed.
    apply is_special_cases in Ec. apply is_special_cases in Ed.
    cbn in Ec, Ed.
    decompose [or] Ec; decompose [or] Ed; subst; try contradiction;
      intros H; vm_compute in H; try discriminate;
      (split; [reflexivity|]); injection H as H; exact H.
  - destruct (esc_special c Ec) as [_ [_ Hh]]. rewrite (esc_plain d Ed).
    intros H. exfalso.
    destruct (esc c) as [|x l]; [discriminate|]. cbn in Hh, H.
    injection Hh as Hx. injection H as Hd _. subst x d.
    vm_compute in Ed. discriminate.
  - destruct (esc_special d Ed) as [_ [_ Hh]]. rewrite (esc_plain c Ec).
    intros H. exfalso.
    destruct (esc d) as [|x l]; [discriminate|]. cbn in Hh, H.
    injection Hh as Hx. injection H as Hd _. subst x c.
    vm_compute in Ec. discriminate.
  - rewrite (esc_plain c Ec), (esc_plain d Ed). cbn. intros H.
    injection H as -> ->. now split.
Qed.

Lemma flat_map_esc (text : str) : escapeHtml text = flat_map esc text.
Proof. apply escapeHtml_flat_map. Qed.

Lemma escapeHtml_inj (a : str) :
  forall b, escapeHtml a = escapeHtml b -> a = b.
Proof.
  induction a as [|c a IH]; intros [|d b]; rewrite !flat_map_esc;
    cbn [flat_map]; intros H.
  - reflexivity.
  - exfalso. pose proof (esc_length d) as L.
    destruct (esc d); [cbn in L; lia|discriminate].
  - exfalso. pose proof (esc_length c) as L.
    destruct (esc c); [cbn in L; lia|discriminate].
  - apply esc_cancel in H. destruct H as [-> H].
    f_equal. apply IH. now rewrite !flat_map_esc.
Qed.

Lemma escape_length_bounds (s : str) :
  length s <= length (escapeHtml s) <= 6 * length s.
Proof.
  rewrite flat_map_esc. induction s as [|c s IH]; [cbn; lia|].
  cbn [flat_map]. rewrite length_app. pose proof (esc_length c).
  cbn [length]. lia.
Qed.

Lemma escapeHtml_same_length (s : str) :
  length (escapeHtml s) = length s ->
  forallb (fun c => negb (is_special c)) s = true.
Proof.
  induction s as [|c s IH]; [reflexivity|].
  pose proof (escape_length_bounds s) as B. revert B IH.
  rewrite !flat_map_esc. cbn [flat_map forallb]. rewrite length_app.
  intros B IH H. cbn [length] in H.
  destruct (is_special c) eqn:E.
  - destruct (esc_special c E) as [_ [L _]]. lia.
  - rewrite (esc_plain c E) in H. cbn [length] in H.
    cbn [negb andb]. apply IH. lia.
Qed.

(** X1: [escapeHtml] works code unit by code unit: the escape of a
    concatenation is the concatenation of the escapes, and the escape of
    one code unit is its entity when it is special and itself otherwise. *)
Theorem escapeHtml_concat (a b : str) (c : code_unit) :
  escapeHtml (a ++ b) = escapeHtml a ++ escapeHtml b
  /\ escapeHtml (c :: b)
     = (if is_special c then entity_or_self [c] else [c]) ++ escapeHtml b
  /\ escapeHtml [] = [].
Proof.
  rewrite !flat_map_esc. split; [apply flat_map_app|]. now split.
Qed.

(** X2: [escapeHtml] loses nothing: two texts with the same escape are the
    same text. *)
Theorem escapeHtml_injective (a b : str) :
  escapeHtml a = escapeHtml b -> a = b.
Proof. apply escapeHtml_inj. Qed.

(** X2 at two equal texts. *)
Lemma escapeHtml_injective_witness :
  escapeHtml (lit "a<b") = escapeHtml (lit "a<b") /\ lit "a<b" = lit "a<b".
Proof.
  split; [reflexivity|].
  exact (escapeHtml_injective (lit "a<b") (lit "a<b") eq_refl).
Defined.

(** X3: escaping never shortens a text and makes it at most six times as
    long, the length of the longest entity. *)
Theorem escapeHtml_length (s : str) :
  length s <= length (escapeHtml s) <= 6 * length s
  /\ Forall (fun kv => length (snd kv) <= 6) HTML_ENTITIES
  /\ length (escapeHtml [dquote]) = 6.
Proof.
  split; [apply escape_length_bounds|].
  split; [|reflexivity]. repeat constructor.
Qed.

(** X4: the texts that [escapeHtml] leaves as they are are exactly those
    without a special character; on every other text a second escape
    changes the result of the first, since the entities carry an
    ampersand. *)
Theorem escapeHtml_fixed_points (s : str) :
  (escapeHtml s = s <-> forallb (fun c => negb (is_special c)) s = true)
  /\ (escapeHtml (escapeHtml s) = escapeHtml s
      <-> forallb (fun c => negb (is_special c)) s = true).
Proof.
  assert (F : escapeHtml s = s
              <-> forallb (fun c => negb (is_special c)) s = true).
  { split; [|apply escapeHtml_id].
    intros H. apply escapeHtml_same_length. now rewrite H. }
  split; [exact F|]. split.
  - intros H. apply F. now apply escapeHtml_inj.
  - intros H. apply F in H. now rewrite !H.
Qed.

End Escape.

(** ** Pattern removal and the top-level operation *)

Lemma no_raw_no_lt (t : str) : no_raw t -> ~ In (ch "<") t.
Proof.
  unfold no_raw. rewrite Forall_forall. intros H Hin.
  specialize (H _ Hin). discriminate.
Qed.

Lemma strip_tags_escaped (t : str) : strip_tags (escapeHtml t) = escapeHtml t.
Proof.
  unfold strip_tags. apply replace_id. intros k p.
  apply re_tag_needs_lt. intros Hin. apply In_skipn in Hin.
  exact (no_raw_no_lt _ (escapeHtml_no_raw t) Hin).
Qed.

(** X5: the residual tag strip never removes anything: after [escapeHtml]
    no [<] is left for it to match, so the text [sanitizeInput] returns is
    the clamped escape of the pattern-stripped, trimmed input. *)
Theorem residual_strip_is_noop (input : value) (st : store) (t : str) :
  strip_tags (escapeHtml t) = escapeHtml t
  /\ matches re_tag (escapeHtml t) = false
  /\ fst (sanitizeInput input st)
     = match guard input with
       | Some s => clamp (escapeHtml (fst (removeDangerousPatterns (trim s) st)))
       | None => []
       end.
Proof.
  split; [apply strip_tags_escaped|]. split.
  - pose proof (no_raw_no_lt _ (escapeHtml_no_raw t)) as H.
    unfold matches, test_literal, test, exec.
    cbn [length Nat.ltb Nat.leb].
    assert (G : forall u prev i, ~ In (ch "<") u -> scan re_tag prev u i = None).
    { induction u as [|d u IH]; intros prev i Hu; cbn [scan];
        rewrite re_tag_needs_lt by exact Hu; [reflexivity|].
      apply IH. intros Hin. apply Hu. now right. }
    destruct (escapeHtml t); cbn [cursor_at fst snd]; now rewrite G.
  - rewrite sanitizeInput_fst. unfold sanitized_text, removeDangerousPatterns.
    destruct (guard input) as [s|]; [|reflexivity].
    now rewrite forEach_replace_fst, strip_tags_escaped.
Qed.

Lemma replace_go_length (R : RegExp) :
  forall s prev skip,
    length (replace_go R (fun _ => []) prev s skip) <= length s.
Proof.
  induction s as [|c s IH]; intros prev skip.
  - cbn. destruct skip; [destruct (match_at R (prev, []))|]; cbn; lia.
  - cbn [replace_go]. destruct skip as [|j].
    + destruct (match_at R (prev, c :: s)) as [[|j]|]; cbn [app length].
      * specialize (IH (Some c) 0). lia.
      * specialize (IH (Some c) j). lia.
      * specialize (IH (Some c) 0). lia.
    + specialize (IH (Some c) j). cbn [length]. lia.
Qed.

Lemma remove_all_shrinks (ps : list RegExp) :
  forall t, length (remove_all ps t) <= length t /\ incl (remove_all ps t) t.
Proof.
  unfold remove_all. induction ps as [|R ps IH]; intros t; cbn [fold_left].
  - split; [lia|apply incl_refl].
  - destruct (IH (replace R (fun _ => []) t)) as [L I].
    pose proof (replace_go_length R t None 0) as L'.
    pose proof (replace_incl R t) as I'. unfold replace in *.
    split; [lia|]. eapply incl_tran; eassumption.
Qed.

(** X6: [removeDangerousPatterns] only removes code units, gives the same
    text whatever the [lastIndex] slots hold, and leaves the slot of every
    pattern at 0 and every other slot as it was. *)
Theorem removeDangerousPatterns_effect (text : str) (st : store) (j : nat) :
  let out := fst (removeDangerousPatterns text st) in
  let st' := snd (removeDangerousPatterns text st) in
  length out <= length text
  /\ incl out text
  /\ out = fst (removeDangerousPatterns text fresh)
  /\ st' j = (if j <? length DANGEROUS_PATTERNS then 0 else st j)
  /\ length DANGEROUS_PATTERNS = 11.
Proof.
  cbv zeta. unfold removeDangerousPatterns.
  rewrite !forEach_replace_fst, forEach_replace_snd.
  destruct (remove_all_shrinks DANGEROUS_PATTERNS text) as [L I].
  split; [exact L|]. split; [exact I|]. split; [reflexivity|].
  split; [|reflexivity]. reflexivity.
Qed.

Lemma drop_space_all (a s : str) :
  forallb is_space a = true -> drop_space (a ++ s) = drop_space s.
Proof.
  induction a as [|c a IH]; [reflexivity|]. cbn [forallb app drop_space].
  intros H. apply andb_true_iff in H. destruct H as [-> H]. now apply IH.
Qed.

Lemma drop_space_app (s b : str) :
  drop_space (s ++ b)
  = match drop_space s with [] => drop_space b | u => u ++ b end.
Proof.
  induction s as [|c s IH]; cbn [app drop_space].
  - now destruct (drop_space b).
  - destruct (is_space c); [exact IH|reflexivity].
Qed.

Lemma drop_space_all_nil (b : str) :
  forallb is_space b = true -> drop_space b = [].
Proof.
  intros H. rewrite <- (app_nil_r b). now rewrite drop_space_all.
Qed.

Lemma trim_outer_space (a s b : str) :
  forallb is_space a = true -> forallb is_space b = true ->
  trim (a ++ s ++ b) = trim s.
Proof.
  intros Ha Hb. unfold trim. rewrite drop_space_all by exact Ha.
  rewrite drop_space_app.
  destruct (drop_space s) as [|c u] eqn:E.
  - rewrite (drop_space_all_nil b Hb). reflexivity.
  - rewrite rev_app_distr. rewrite drop_space_all; [reflexivity|].
    rewrite forallb_forall in Hb |- *. intros x Hx. apply Hb.
    now apply in_rev.
Qed.

Lemma sanitized_text_nil (s : str) : trim s = [] -> sanitized_text (VString s) = [].
Proof.
  intros H. destruct s as [|c s]; [reflexivity|].
  unfold sanitized_text. cbn [guard truthy is_string negb orb].
  rewrite H. vm_compute. reflexivity.
Qed.

(** X7: [sanitizeInput] does not see white space around its input: blanks
    added before and after a text do not change the result. *)
Theorem sanitizeInput_ignores_outer_space (a s b : str) (st : store) :
  forallb is_space a = true ->
  forallb is_space b = true ->
  fst (sanitizeInput (VString (a ++ s ++ b)) st)
  = fst (sanitizeInput (VString s) st).
Proof.
  intros Ha Hb. rewrite !sanitizeInput_fst.
  pose proof (trim_outer_space a s b Ha Hb) as T.
  destruct (trim s) as [|c u] eqn:E.
  - rewrite (sanitized_text_nil _ T). now rewrite (sanitized_text_nil _ E).
  - unfold sanitized_text.
    assert (N1 : a ++ s ++ b <> []) by (intros Z; rewrite Z in T; discriminate).
    assert (N2 : s <> []) by (intros Z; rewrite Z in E; discriminate).
    destruct (a ++ s ++ b) as [|x l]; [congruence|].
    destruct s as [|y m]; [congruence|].
    cbn [guard truthy is_string negb orb]. now rewrite T, E.
Qed.

(** X7 at a note with a tab and a line break around it. *)
Lemma sanitizeInput_ignores_outer_space_witness :
  forallb is_space [9; 32]%N = true
  /\ forallb is_space [10; 160]%N = true
  /\ fst (sanitizeInput (VString ([9; 32]%N ++ lit "a <b" ++ [10; 160]%N)) fresh)
     = fst (sanitizeInput (VString (lit "a <b")) fresh).
Proof.
  split; [reflexivity|]. split; [reflexivity|].
  exact (sanitizeInput_ignores_outer_space
           [9; 32]%N (lit "a <b") [10; 160]%N fresh eq_refl eq_refl).
Defined.

(** X8: a text made of white space only sanitizes to the empty text, like
    the empty text itself. *)
Theorem sanitizeInput_blank (s : str) (st : store) :
  forallb is_space s = true ->
  fst (sanitizeInput (VString s) st) = []
  /\ fst (sanitizeNoteInput (VString s) st) = Returns [].
Proof.
  intros H.
  assert (E : sanitized_text (VString s) = []).
  { apply sanitized_text_nil. unfold trim.
    now rewrite (drop_space_all_nil s H). }
  rewrite sanitizeNoteInput_fst, sanitizeInput_fst, E. now split.
Qed.

(** X8 at three blanks. *)
Lemma sanitizeInput_blank_witness :
  forallb is_space (lit "   ") = true
  /\ fst (sanitizeInput (VString (lit "   ")) fresh) = []
  /\ fst (sanitizeNoteInput (VString (lit "   ")) fresh) = Returns [].
Proof.
  split; [reflexivity|].
  exact (sanitizeInput_blank (lit "   ") fresh eq_refl).
Defined.


(** ** Scanning from a stale [lastIndex] *)

Section Scan.

Variable R : RegExp.

Lemma scan_index (s : str) :
  forall p i j, scan R p s i <> None -> scan R p s j <> None.
Proof.
  induction s as [|c s IH]; intros p i j; cbn [scan];
    destruct (match_at R (p, _)); try discriminate; try (intros H; exact H).
  apply IH.
Qed.

(** A match found from a later position is found, or preceded by another,
    from the start. *)
Lemma scan_later (s : str) :
  forall p k i j,
    scan R (fst (cursor_at p s k)) (snd (cursor_at p s k)) i <> None ->
    scan R p s j <> None.
Proof.
  induction s as [|c s IH]; intros p k i j H.
  - destruct k; cbn [cursor_at fst snd] in H; eapply scan_index; exact H.
  - destruct k as [|k]; cbn [cursor_at fst snd] in H.
    + eapply scan_index; exact H.
    + cbn [scan]. destruct (match_at R (p, c :: s)); [discriminate|].
      eapply IH; exact H.
Qed.

Lemma matches_scan (s : str) :
  matches R s = true <-> scan R None s 0 <> None.
Proof.
  unfold matches, test_literal, test, exec. cbn [length Nat.ltb Nat.leb].
  replace (cursor_at None s 0) with (@None N, s) by now destruct s.
  cbn [fst snd]. destruct (scan R None s 0) as [[a e]|]; cbn [fst].
  - split; [discriminate|reflexivity].
  - split; [discriminate|congruence].
Qed.

Lemma test_hit (lastIndex : nat) (s : str) :
  fst (test R lastIndex s) = true -> matches R s = true.
Proof.
  unfold test, exec. intros H. apply matches_scan.
  destruct (length s <? lastIndex); [discriminate|].
  apply (scan_later s None lastIndex lastIndex 0).
  destruct (scan R _ _ lastIndex); [discriminate|discriminate].
Qed.

Lemma test_miss (lastIndex : nat) (s : str) :
  fst (test R lastIndex s) = false -> snd (test R lastIndex s) = 0.
Proof.
  unfold test. destruct (exec R lastIndex s) as [[a e]|];
    [discriminate|reflexivity].
Qed.

(** Where [R] matches in [s], it matches at the start of some suffix. *)
Lemma matches_elim (s : str) :
  matches R s = true ->
  exists p u, suffix u s /\ match_at R (p, u) <> None.
Proof.
  rewrite matches_scan. generalize (@None N) 0.
  induction s as [|c s IH]; intros p i; cbn [scan];
    destruct (match_at R (p, _)) eqn:E; intros H.
  - exists p, []. split; [apply suffix_refl|congruence].
  - congruence.
  - exists p, (c :: s). split; [apply suffix_refl|congruence].
  - destruct (IH _ _ H) as [q [u [[pre Hu] Hm]]].
    exists q, u. split; [|exact Hm]. exists (c :: pre). now rewrite Hu.
Qed.

Lemma matches_intro (s u : str) :
  suffix u s ->
  (forall p, match_at R (p, u) <> None) ->
  matches R s = true.
Proof.
  intros [pre ->] H. apply matches_scan. generalize (@None N) 0.
  induction pre as [|c pre IH]; intros p i.
  - cbn [app]. specialize (H p).
    destruct u; cbn [scan]; destruct (match_at R _); congruence.
  - cbn [app scan]. destruct (match_at R _); [discriminate|apply IH].
Qed.

End Scan.

Lemma includes_ci_suffix (l s : str) :
  includes_ci l s = true <-> exists u, suffix u s /\ prefix_ci l u = true.
Proof.
  split.
  - induction s as [|c s IH]; cbn [includes_ci]; intros H;
      apply orb_true_iff in H; destruct H as [H|H]; try discriminate.
    + exists []. split; [apply suffix_refl|exact H].
    + exists (c :: s). split; [apply suffix_refl|exact H].
    + destruct (IH H) as [u [[pre Hu] Hp]]. exists u.
      split; [|exact Hp]. exists (c :: pre). now rewrite Hu.
  - intros [u [[pre ->] H]]. apply includes_ci_app_l.
    destruct u; cbn [includes_ci]; now rewrite H.
Qed.

(** A scheme pattern matches exactly in the texts that contain its token,
    up to ASCII case. *)
Lemma matches_scheme_iff (token : string) (s : str) :
  lit token <> [] ->
  matches (scheme token) s = includes_ci (lit token) s.
Proof.
  intros Hl. destruct (includes_ci (lit token) s) eqn:I.
  - now apply matches_scheme.
  - destruct (matches (scheme token) s) eqn:M; [|reflexivity].
    apply matches_elim in M. destruct M as [p [u [Su Hm]]].
    assert (P : prefix_ci (lit token) u = true).
    { unfold match_at in Hm. cbn [scheme source ignoreCase] in Hm.
      destruct (m true _ (p, u) _) as [z|] eqn:E; [|congruence].
      now apply m_lit_prefix in E. }
    assert (I' : includes_ci (lit token) s = true)
      by (apply includes_ci_suffix; now exists u).
    congruence.
Qed.

(** The literal of the last check matches exactly in the texts that
    contain one of its two tokens. *)
Lemma matches_js_data (s : str) :
  matches re_js_data s
  = includes_ci (lit "javascript:") s || includes_ci (lit "data:") s.
Proof.
  destruct (includes_ci (lit "javascript:") s
            || includes_ci (lit "data:") s) eqn:I.
  - apply orb_true_iff in I.
    assert (G : exists l, l <> [] /\ includes_ci l s = true
                          /\ (l = lit "javascript:" \/ l = lit "data:")).
    { destruct I as [I|I]; eexists; (split; [|split; [exact I|tauto]]);
        discriminate. }
    destruct G as [l [Hl [Hi Hc]]].
    apply includes_ci_suffix in Hi. destruct Hi as [u [Su Hp]].
    apply (matches_intro re_js_data s u Su). intros p.
    unfold match_at, re_js_data. cbn [source ignoreCase m].
    destruct Hc as [-> | ->].
    + destruct (prefix_m_lit _ Hl p u (fun y => Some y) Hp) as [y ->].
      discriminate.
    + destruct (m true (Lit (lit "javascript:")) (p, u) _); [discriminate|].
      destruct (prefix_m_lit _ Hl p u (fun y => Some y) Hp) as [y ->].
      discriminate.
  - apply orb_false_iff in I. destruct I as [I1 I2].
    destruct (matches re_js_data s) eqn:M; [|reflexivity].
    apply matches_elim in M. destruct M as [p [u [Su Hm]]].
    unfold match_at, re_js_data in Hm. cbn [source ignoreCase m] in Hm.
    destruct (m true (Lit (lit "javascript:")) (p, u) _) as [z|] eqn:E1.
    + apply m_lit_prefix in E1.
      assert (X : includes_ci (lit "javascript:") s = true)
        by (apply includes_ci_suffix; now exists u).
      congruence.
    + destruct (m true (Lit (lit "data:")) (p, u) _) as [z|] eqn:E2;
        [|congruence].
      apply m_lit_prefix in E2.
      assert (X : includes_ci (lit "data:") s = true)
        by (apply includes_ci_suffix; now exists u).
      congruence.
Qed.

(** ** [isInputSafe] on any store *)

Lemma guard_some (v : value) (s : str) :
  guard v = Some s -> v = VString s /\ exists c u, s = c :: u.
Proof.
  destruct v as [| |b|n| |t]; unfold guard; cbn [truthy is_string negb];
    rewrite ?orb_true_r; try discriminate.
  destruct t as [|c u]; cbn; [discriminate|].
  intros H. injection H as <-. split; [reflexivity|]. now exists c, u.
Qed.

Lemma for_of_test_hit (ps : list RegExp) (s : str) :
  forall i st,
    fst (for_of_test i ps s st) = true ->
    existsb (fun R => matches R s) ps = true.
Proof.
  induction ps as [|R ps IH]; intros i st; cbn [for_of_test existsb].
  - discriminate.
  - unfold bind, test_pattern.
    pose proof (test_hit R (st i) s) as T.
    destruct (test R (st i) s) as [b e]. destruct b; cbn [fst] in T |- *.
    + intros _. now rewrite T.
    + intros H. apply IH in H. rewrite H. apply orb_true_r.
Qed.

Lemma for_of_test_frame (ps : list RegExp) (s : str) :
  forall i st j, j < i -> snd (for_of_test i ps s st) j = st j.
Proof.
  induction ps as [|R ps IH]; intros i st j Hj; cbn [for_of_test];
    [reflexivity|].
  unfold bind, test_pattern. destruct (test R (st i) s) as [b e].
  assert (F : set_lastIndex i e st j = st j).
  { unfold set_lastIndex. destruct (Nat.eqb_spec j i); [lia|reflexivity]. }
  destruct b; [exact F|]. rewrite IH by lia. exact F.
Qed.

Lemma for_of_test_miss (ps : list RegExp) (s : str) :
  forall i st,
    fst (for_of_test i ps s st) = false ->
    forall j, i <= j < i + length ps -> snd (for_of_test i ps s st) j = 0.
Proof.
  induction ps as [|R ps IH]; intros i st H j Hj; cbn [length] in Hj;
    [lia|].
  cbn [for_of_test] in H |- *. unfold bind, test_pattern in H |- *.
  pose proof (test_miss R (st i) s) as T.
  destruct (test R (st i) s) as [b e]. destruct b; [discriminate|].
  cbn [fst snd] in T. rewrite (T eq_refl) in H |- *.
  destruct (Nat.eq_dec j i) as [->|Hne].
  - rewrite for_of_test_frame by lia. unfold set_lastIndex.
    now rewrite Nat.eqb_refl.
  - apply IH; [exact H|lia].
Qed.

(** The verdict on fresh slots, for the text the guard lets through. *)
Lemma isInputSafe_fresh_text (v : value) (s : str) :
  guard v = Some s ->
  fst (isInputSafe v fresh)
  = negb (existsb (fun R => matches R s) DANGEROUS_PATTERNS
          || matches re_tag s || matches re_js_data s).
Proof.
  intros G. destruct (guard_some v s G) as [-> [c [u ->]]].
  apply isInputSafe_fresh.
Qed.

(** X10: a moved [lastIndex] can hide a match from [isInputSafe] but
    cannot invent one: an input judged unsafe from some store is judged
    unsafe from fresh slots as well. *)
Theorem isInputSafe_stale_only_hides (v : value) (st : store) :
  fst (isInputSafe v st) = false -> fst (isInputSafe v fresh) = false.
Proof.
  intros H. unfold isInputSafe in H.
  destruct (guard v) as [s|] eqn:G; [|discriminate].
  rewrite (isInputSafe_fresh_text v s G). unfold bind in H.
  pose proof (for_of_test_hit DANGEROUS_PATTERNS s 0 st) as Hit.
  destruct (for_of_test 0 DANGEROUS_PATTERNS s st) as [hit st1].
  cbn [fst] in Hit. unfold matches at 2 3.
  destruct hit; [now rewrite Hit|].
  destruct (test_literal re_tag s); [now rewrite orb_true_r|].
  destruct (test_literal re_js_data s); [now rewrite orb_true_r|discriminate].
Qed.

(** X10 at a script block, judged a second time. *)
Lemma isInputSafe_stale_only_hides_witness :
  fst (isInputSafe (VString (lit "<script>a</script>"))
         (snd (isInputSafe (VString (lit "<script>a</script>")) fresh)))
  = false
  /\ fst (isInputSafe (VString (lit "<script>a</script>")) fresh) = false.
Proof.
  assert (H : fst (isInputSafe (VString (lit "<script>a</script>"))
                     (snd (isInputSafe (VString (lit "<script>a</script>"))
                                       fresh))) = false)
    by (vm_compute; reflexivity).
  split; [exact H|].
  exact (isInputSafe_stale_only_hides _ _ H).
Defined.

(** X11: a call of [isInputSafe] that judges a non-empty text safe has
    tested every pattern without a match and so leaves every [lastIndex]
    at 0: the call that follows, on any value, behaves as on fresh slots. *)
Theorem isInputSafe_safe_resets
        (c : code_unit) (s : str) (w : value) (st : store) :
  fst (isInputSafe (VString (c :: s)) st) = true ->
  (forall j, j < length DANGEROUS_PATTERNS ->
             snd (isInputSafe (VString (c :: s)) st) j = 0)
  /\ fst (isInputSafe w (snd (isInputSafe (VString (c :: s)) st)))
     = fst (isInputSafe w fresh).
Proof.
  intros H.
  assert (Z : forall j, j < length DANGEROUS_PATTERNS ->
                        snd (isInputSafe (VString (c :: s)) st) j = 0).
  { revert H. unfold isInputSafe. cbn [guard truthy is_string negb orb].
    unfold bind.
    pose proof (for_of_test_miss DANGEROUS_PATTERNS (c :: s) 0 st) as M.
    destruct (for_of_test 0 DANGEROUS_PATTERNS (c :: s) st) as [hit st1].
    cbn [fst snd] in M. destruct hit; [discriminate|].
    intros H j Hj.
    destruct (test_literal re_tag (c :: s)); [discriminate|].
    destruct (test_literal re_js_data (c :: s)); [discriminate|].
    cbn [snd ret]. apply M; [reflexivity|lia]. }
  split; [exact Z|]. now apply isInputSafe_zero_slots.
Qed.

(** X11 at a plain word, judged after a call that moved a [lastIndex]. *)
Lemma isInputSafe_safe_resets_witness :
  let stale := snd (isInputSafe (VString (lit "onclick=")) fresh) in
  fst (isInputSafe (VString (lit "hello")) stale) = true
  /\ (forall j, j < length DANGEROUS_PATTERNS ->
                snd (isInputSafe (VString (lit "hello")) stale) j = 0)
  /\ fst (isInputSafe (VString (lit "onclick="))
            (snd (isInputSafe (VString (lit "hello")) stale)))
     = fst (isInputSafe (VString (lit "onclick=")) fresh).
Proof.
  cbv zeta.
  assert (H : fst (isInputSafe (VString (lit "hello"))
                     (snd (isInputSafe (VString (lit "onclick=")) fresh)))
              = true) by (vm_compute; reflexivity).
  split; [exact H|].
  exact (isInputSafe_safe_resets (ch "h") (lit "ello")
           (VString (lit "onclick=")) _ H).
Defined.

(** X12: whatever the slots hold, a text judged safe holds no tag-like
    piece and neither [javascript:] nor [data:]: the two checks made with
    fresh literals cannot be hidden. *)
Theorem isInputSafe_safe_guarantees (s : str) (st : store) :
  fst (isInputSafe (VString s) st) = true ->
  matches re_tag s = false
  /\ includes_ci (lit "javascript:") s = false
  /\ includes_ci (lit "data:") s = false.
Proof.
  intros H. destruct s as [|c u]; [now vm_compute|].
  assert (L : test_literal re_tag (c :: u) || test_literal re_js_data (c :: u)
              = false).
  { destruct (test_literal re_tag (c :: u) || test_literal re_js_data (c :: u))
      eqn:E; [|reflexivity].
    rewrite (isInputSafe_literals (c :: u) st) in H;
      [discriminate|discriminate|exact E]. }
  apply orb_false_iff in L. destruct L as [L1 L2].
  split; [exact L1|].
  change (matches re_js_data (c :: u) = false) in L2.
  rewrite matches_js_data in L2. now apply orb_false_iff in L2.
Qed.

(** X12 at a plain word. *)
Lemma isInputSafe_safe_guarantees_witness :
  fst (isInputSafe (VString (lit "hello")) fresh) = true
  /\ matches re_tag (lit "hello") = false
  /\ includes_ci (lit "javascript:") (lit "hello") = false
  /\ includes_ci (lit "data:") (lit "hello") = false.
Proof.
  assert (H : fst (isInputSafe (VString (lit "hello")) fresh) = true)
    by (vm_compute; reflexivity).
  split; [exact H|].
  exact (isInputSafe_safe_guarantees (lit "hello") fresh H).
Defined.

Lemma js_data_covered (s : str) :
  matches re_js_data s = true ->
  existsb (fun R => matches R s) DANGEROUS_PATTERNS = true.
Proof.
  rewrite matches_js_data. intros H. apply orb_true_iff in H.
  apply existsb_exists. destruct H as [H|H].
  - exists (scheme "javascript:"). split; [cbn; tauto|].
    rewrite matches_scheme_iff; [exact H|discriminate].
  - exists (scheme "data:"). split; [cbn; tauto|].
    rewrite matches_scheme_iff; [exact H|discriminate].
Qed.

Lemma fresh_verdict_without_last_check (c : code_unit) (s : str) :
  fst (isInputSafe (VString (c :: s)) fresh)
  = negb (existsb (fun R => matches R (c :: s)) DANGEROUS_PATTERNS
          || matches re_tag (c :: s)).
Proof.
  rewrite isInputSafe_fresh.
  destruct (matches re_js_data (c :: s)) eqn:E; [|now rewrite orb_false_r].
  now rewrite (js_data_covered _ E).
Qed.

(** X13: from fresh slots the last check of [isInputSafe] never decides:
    the verdict on a non-empty text is that no dangerous pattern and no
    tag-like piece matches, since the two schemes of the last check are
    among the patterns. *)
Theorem isInputSafe_last_check_redundant (c : code_unit) (s : str) :
  fst (isInputSafe (VString (c :: s)) fresh)
  = negb (existsb (fun R => matches R (c :: s)) DANGEROUS_PATTERNS
          || matches re_tag (c :: s))
  /\ (forall t, matches re_js_data t
                = matches (scheme "javascript:") t || matches (scheme "data:") t)
  /\ (In (scheme "javascript:") DANGEROUS_PATTERNS
      /\ In (scheme "data:") DANGEROUS_PATTERNS).
Proof.
  split; [apply fresh_verdict_without_last_check|].
  split; [|cbn; tauto].
  intros t. rewrite matches_js_data.
  now rewrite !matches_scheme_iff by discriminate.
Qed.

(** ** When [sanitizeNoteInput] throws *)

Lemma matches_none (R : RegExp) (s : str) :
  (forall p u, suffix u s -> match_at R (p, u) = None) ->
  matches R s = false.
Proof.
  intros H. destruct (matches R s) eqn:M; [|reflexivity].
  apply matches_elim in M. destruct M as [p [u [Su Hm]]].
  now rewrite (H p u Su) in Hm.
Qed.

Lemma no_raw_not_In (t : str) (c : code_unit) :
  no_raw t -> is_raw c = true -> forall u, suffix u t -> ~ In c u.
Proof.
  unfold no_raw. rewrite Forall_forall. intros H Hc u Su Hin.
  rewrite (H c (suffix_In u t c Su Hin)) in Hc. discriminate.
Qed.

(** On a text without raw characters only the three scheme patterns can
    match. *)
Lemma dangerous_on_escaped (t : str) :
  no_raw t ->
  existsb (fun R => matches R t) DANGEROUS_PATTERNS
  = includes_ci (lit "javascript:") t
    || includes_ci (lit "vbscript:") t
    || includes_ci (lit "data:") t.
Proof.
  intros H.
  assert (T : forall name, matches (tag_block name) t = false).
  { intros name. apply matches_none. intros p u Su.
    apply tag_block_needs_lt. now apply (no_raw_not_In t (ch "<") H). }
  assert (O : matches on_handler t = false).
  { apply matches_none. intros p u Su.
    apply on_handler_needs_eq. now apply (no_raw_not_In t (ch "=") H). }
  cbn [DANGEROUS_PATTERNS existsb]. rewrite !T, O.
  rewrite !matches_scheme_iff by discriminate.
  cbn [orb]. rewrite orb_false_r.
  now rewrite !orb_assoc.
Qed.

Lemma note_verdict (input : value) :
  fst (isInputSafe (VString (sanitized_text input)) fresh)
  = negb (includes_ci (lit "javascript:") (sanitized_text input)
          || includes_ci (lit "vbscript:") (sanitized_text input)
          || includes_ci (lit "data:") (sanitized_text input)).
Proof.
  pose proof (sanitized_text_no_raw input) as H.
  destruct (sanitized_text input) as [|c u] eqn:E; [reflexivity|].
  rewrite fresh_verdict_without_last_check.
  rewrite (dangerous_on_escaped _ H).
  assert (T : matches re_tag (c :: u) = false).
  { apply matches_none. intros p v Sv.
    apply re_tag_needs_lt. now apply (no_raw_not_In (c :: u) (ch "<") H). }
  now rewrite T, orb_false_r.
Qed.

(** X14: [sanitizeNoteInput] throws exactly when the sanitized text holds
    one of the tokens [javascript:], [vbscript:] and [data:], in any letter
    case; nothing else in a sanitized text can trip [isInputSafe]. *)
Theorem sanitizeNoteInput_throws_iff (input : value) (st : store) :
  let t := fst (sanitizeInput input st) in
  let dirty := includes_ci (lit "javascript:") t
               || includes_ci (lit "vbscript:") t
               || includes_ci (lit "data:") t in
  (fst (sanitizeNoteInput input st) = Throws INVALID_INPUT <-> dirty = true)
  /\ (fst (sanitizeNoteInput input st) = Returns t <-> dirty = false).
Proof.
  cbv zeta.
  rewrite sanitizeNoteInput_fst, isInputSafe_after_sanitize, sanitizeInput_fst.
  rewrite note_verdict.
  destruct (includes_ci (lit "javascript:") (sanitized_text input)
            || includes_ci (lit "vbscript:") (sanitized_text input)
            || includes_ci (lit "data:") (sanitized_text input));
    cbn [negb]; split; split; congruence.
Qed.

(** X15: on a value that is not a non-empty string [sanitizeNoteInput]
    returns the empty text, does not throw, and leaves the store as it
    was. *)
Theorem sanitizeNoteInput_empty (input : value) (st : store) :
  match input with
  | VString (_ :: _) => True
  | _ => sanitizeNoteInput input st = (Returns [], st)
  end.
Proof.
  destruct input as [| |b|n| |s]; try reflexivity.
  - now destruct b.
  - unfold sanitizeNoteInput, sanitizeInput, isInputSafe, guard, bind.
    cbn [truthy is_string negb]. now rewrite orb_true_r.
  - now destruct s.
Qed.

(** X16: a text that [sanitizeNoteInput] returns is the text of
    [sanitizeInput]: at most 5000 code units, without raw characters,
    without any of the three scheme tokens, and safe for [isInputSafe] on
    fresh slots. *)
Theorem sanitizeNoteInput_returned_text (input : value) (st : store) (t : str) :
  fst (sanitizeNoteInput input st) = Returns t ->
  t = fst (sanitizeInput input st)
  /\ length t <= MAX_LENGTH
  /\ no_raw t
  /\ includes_ci (lit "javascript:") t = false
  /\ includes_ci (lit "vbscript:") t = false
  /\ includes_ci (lit "data:") t = false
  /\ fst (isInputSafe (VString t) fresh) = true.
Proof.
  intros H. pose proof (sanitizeNoteInput_returns_clean input st t H) as C.
  revert H. rewrite sanitizeNoteInput_fst, isInputSafe_after_sanitize.
  rewrite sanitizeInput_fst.
  destruct (fst (isInputSafe _ fresh)) eqn:E; [|discriminate].
  intros H. injection H as <-.
  split; [reflexivity|]. split.
  - unfold sanitized_text. destruct (guard input); [|apply Nat.le_0_l].
    rewrite clamp_firstn. apply firstn_le_length.
  - split; [apply sanitized_text_no_raw|].
    destruct C as [C1 [C2 C3]]. now repeat (split; [assumption|]).
Qed.

(** X16 at an event handler, which is removed before the check. *)
Lemma sanitizeNoteInput_returned_text_witness :
  fst (sanitizeNoteInput (VString (lit "onclick=alert(1)")) fresh)
  = Returns (lit "alert(1)")
  /\ lit "alert(1)"
     = fst (sanitizeInput (VString (lit "onclick=alert(1)")) fresh)
  /\ length (lit "alert(1)") <= MAX_LENGTH.
Proof.
  assert (H : fst (sanitizeNoteInput (VString (lit "onclick=alert(1)")) fresh)
              = Returns (lit "alert(1)")) by (vm_compute; reflexivity).
  split; [exact H|].
  destruct (sanitizeNoteInput_returned_text _ _ _ H) as [A [B _]].
  split; [exact A|exact B].
Defined.

(** ** What a tag-block pattern removes *)

Lemma is_word_canon (x y : code_unit) :
  canon x = canon y -> is_word x = is_word y.
Proof.
  unfold canon, is_word.
  destruct (N.leb_spec 97 x), (N.leb_spec x 122), (N.leb_spec 97 y),
    (N.leb_spec y 122); cbn [andb orb]; intros E;
    destruct (N.leb_spec 65 x), (N.leb_spec x 90), (N.leb_spec 65 y),
      (N.leb_spec y 90); cbn [andb orb]; try lia; try reflexivity;
    destruct (N.leb_spec 48 x), (N.leb_spec x 57), (N.leb_spec 48 y),
      (N.leb_spec y 57); cbn [andb orb]; try lia; try reflexivity;
    destruct (N.eqb_spec x 95), (N.eqb_spec y 95); try lia; reflexivity.
Qed.

(** A literal under the [i] flag consumes a text equal to it up to ASCII
    case and goes on after it. *)
Lemma m_lit_exact (l : str) :
  l <> [] ->
  forall o p r k,
    map canon l = map canon o ->
    m true (Lit l) (p, o ++ r) k = k (Some (last o 0%N), r).
Proof.
  induction l as [|c l IH]; intros Hl o p r k E; [congruence|].
  destruct o as [|d o]; [discriminate|].
  cbn [map] in E. injection E as Ec E.
  destruct l as [|c' l].
  - destruct o; [|discriminate]. cbn [Lit m app]. rewrite one_step.
    unfold chr_eq. now rewrite Ec, N.eqb_refl.
  - destruct o as [|d' o]; [discriminate|].
    change (Lit (c :: c' :: l)) with (Seq (Chr c) (Lit (c' :: l))).
    cbn [m]. change ((d :: d' :: o) ++ r) with (d :: ((d' :: o) ++ r)).
    rewrite one_step. unfold chr_eq. rewrite Ec, N.eqb_refl.
    rewrite IH by (discriminate || exact E). reflexivity.
Qed.

(** The greedy run of [[^<]*] over a stretch without [<] that is followed
    by [<] or by the end: it takes the whole stretch when the continuation
    accepts the position after it. *)
Lemma not_lt_run (k : cursor -> option cursor) (z : cursor) (rest' : str) :
  (forall q, k (q, rest') = Some z) ->
  hd_error rest' = Some (ch "<") \/ rest' = [] ->
  forall run p n,
    ~ In (ch "<") run ->
    length (run ++ rest') < n ->
    repeat_matcher (m true (NotChr (ch "<"))) k n (p, run ++ rest') = Some z.
Proof.
  intros Hk Hr. induction run as [|c run IH]; intros p n Hrun Hn.
  - cbn [app] in *. destruct n as [|n]; [apply Hk|].
    cbn [repeat_matcher m].
    destruct Hr as [Hr| ->]; [|now rewrite Hk].
    destruct rest' as [|d u]; [discriminate|]. injection Hr as ->.
    rewrite one_step.
    replace (negb (chr_eq true (ch "<") (ch "<"))) with false by reflexivity.
    apply Hk.
  - destruct n as [|n]; [cbn in Hn; lia|].
    cbn [repeat_matcher m app]. rewrite one_step.
    assert (Hc : negb (chr_eq true (ch "<") c) = true).
    { apply negb_true_iff. destruct (chr_eq true (ch "<") c) eqn:E;
        [|reflexivity].
      apply chr_eq_low in E; [|reflexivity]. subst c.
      exfalso. apply Hrun. now left. }
    rewrite Hc. cbn [rest snd length].
    replace (length (run ++ rest') =? S (length (run ++ rest'))) with false
      by (symmetry; apply Nat.eqb_neq; lia).
    rewrite IH; [reflexivity| |cbn [app length] in Hn; lia].
    intros Hin. apply Hrun. now right.
Qed.

Lemma tag_block_source (name : string) :
  source (tag_block name)
  = Seq (Lit (lit "<" ++ lit name))
      (Seq WordB
         (Seq (Star (NotChr (ch "<")))
            (Seq (Star (Seq (NegLook (Lit (lit "</" ++ lit name ++ lit ">")))
                            (Seq (Chr (ch "<")) (Star (NotChr (ch "<"))))))
                 (Lit (lit "</" ++ lit name ++ lit ">"))))).
Proof. reflexivity. Qed.

Lemma m_wordb (ic : bool) (x : cursor) (k : cursor -> option cursor) :
  m ic WordB x k
  = if xorb (is_word_opt (fst x)) (is_word_opt (hd_error (rest x)))
    then k x else None.
Proof. reflexivity. Qed.

Lemma m_star (ic : bool) (r : re) (x : cursor) (k : cursor -> option cursor) :
  m ic (Star r) x k = repeat_matcher (m ic r) k (S (length (rest x))) x.
Proof. reflexivity. Qed.

Lemma m_neglook (ic : bool) (r : re) (x : cursor)
      (k : cursor -> option cursor) :
  m ic (NegLook r) x k
  = match m ic r x (fun y => Some y) with Some _ => None | None => k x end.
Proof. reflexivity. Qed.

(** The match of a tag-block pattern on a block whose content holds no
    [<]: the whole block, from the opening name to the closing tag. *)
Lemma tag_block_match (name : string) (o inner cl post : str)
      (p : option code_unit) :
  is_word (last o 0%N) = true ->
  map canon (lit "<" ++ lit name) = map canon o ->
  map canon (lit "</" ++ lit name ++ lit ">") = map canon cl ->
  ~ In (ch "<") inner ->
  is_word_opt (hd_error inner) = false ->
  match_at (tag_block name) (p, o ++ inner ++ cl ++ post)
  = Some (length (o ++ inner ++ cl)).
Proof.
  intros Hw Ho Hcl Hin Hb.
  assert (Hcl0 : exists cl', cl = ch "<" :: cl').
  { destruct cl as [|d cl']; [discriminate|]. cbn in Hcl.
    injection Hcl as Hd _. apply (canon_low (ch "<") d) in Hd; [|reflexivity].
    subst d. now exists cl'. }
  destruct Hcl0 as [cl' Ecl].
  unfold match_at. rewrite tag_block_source. cbn [ignoreCase].
  rewrite m_seq, m_lit_exact by (discriminate || exact Ho).
  rewrite m_seq, m_wordb. cbn [fst rest snd].
  assert (Hnext : is_word_opt (hd_error (inner ++ cl ++ post)) = false).
  { destruct inner as [|c inner]; [|exact Hb]. now rewrite Ecl. }
  cbn [is_word_opt]. rewrite Hw, Hnext. cbn [xorb].
  rewrite m_seq, m_star.
  set (close := Lit (lit "</" ++ lit name ++ lit ">")).
  set (G := Seq (NegLook close) (Seq (Chr (ch "<")) (Star (NotChr (ch "<"))))).
  set (k := fun y : cursor => m true (Seq (Star G) close) y (fun y0 => Some y0)).
  assert (Hk : forall q, k (q, cl ++ post) = Some (Some (last cl 0%N), post)).
  { intros q. unfold k. rewrite m_seq, m_star.
    cbn [repeat_matcher]. unfold G at 1. rewrite m_seq, m_neglook.
    unfold close. now rewrite !m_lit_exact by (discriminate || exact Hcl). }
  rewrite (not_lt_run k (Some (last cl 0%N), post) (cl ++ post) Hk).
  - cbn [rest snd]. f_equal. rewrite !length_app. lia.
  - left. now rewrite Ecl.
  - exact Hin.
  - cbn [rest snd]. lia.
Qed.

Lemma last_canon (l : str) :
  forall o, map canon l = map canon o ->
            canon (last l 0%N) = canon (last o 0%N).
Proof.
  induction l as [|c l IH]; intros [|d o] E; try discriminate;
    [reflexivity|].
  cbn [map] in E. injection E as Ec E.
  destruct l as [|c' l]; destruct o as [|d' o]; try discriminate.
  - exact Ec.
  - exact (IH (d' :: o) E).
Qed.

Lemma tag_block_starts (name : string) (p : option code_unit) (s : str)
      (n : nat) :
  match_at (tag_block name) (p, s) = Some n -> hd_error s = Some (ch "<").
Proof.
  unfold match_at. rewrite tag_block_source.
  change (ignoreCase (tag_block name)) with true.
  destruct (m true _ (p, s) _) as [z|] eqn:E; [|discriminate]. intros _.
  change (lit "<" ++ lit name) with (ch "<" :: lit name) in E.
  apply m_lit_head in E. destruct E as [d [s' [E P]]].
  apply chr_eq_low in P; [|reflexivity]. subst d.
  cbn [rest snd] in E. now subst s.
Qed.

Lemma tag_block_prev (name : string) (p q : option code_unit) (s : str) :
  match_at (tag_block name) (p, s) = match_at (tag_block name) (q, s).
Proof.
  unfold match_at. rewrite tag_block_source.
  change (ignoreCase (tag_block name)) with true. cbn [rest snd].
  rewrite !m_seq.
  change (lit "<" ++ lit name) with (ch "<" :: lit name).
  destruct (lit name) as [|c l]; cbn [Lit]; [|rewrite !m_seq]; cbn [m];
    (destruct s as [|d s]; [reflexivity|]); now rewrite !one_step.
Qed.

Section ReplaceSteps.

Variable R : RegExp.
Variable f : str -> str.

Hypothesis prev_free :
  forall p q s, match_at R (p, s) = match_at R (q, s).

Lemma replace_go_prev (p q : option code_unit) (s : str) (n : nat) :
  replace_go R f p s n = replace_go R f q s n.
Proof.
  destruct s as [|c s]; cbn [replace_go]; now rewrite (prev_free p q).
Qed.

Lemma replace_go_skip (a s : str) :
  forall p, replace_go R f p (a ++ s) (length a) = replace_go R f None s 0.
Proof.
  induction a as [|c a IH]; intros p; cbn [app length].
  - apply replace_go_prev.
  - cbn [replace_go]. apply IH.
Qed.

(** A stretch in which the pattern cannot start is copied. *)
Lemma replace_go_copy (a s : str) :
  (forall p u v, In u a -> match_at R (p, u :: v) = None) ->
  forall p, replace_go R f p (a ++ s) 0 = a ++ replace_go R f None s 0.
Proof.
  induction a as [|c a IH]; intros H p; cbn [app].
  - apply replace_go_prev.
  - cbn [replace_go]. rewrite H by now left.
    f_equal. apply IH. intros q u v Hu. apply H. now right.
Qed.

(** A match of the whole stretch [b] at its start removes it, when the
    replacement of a match is empty. *)
Lemma replace_go_cut (b s : str) (p : option code_unit) :
  b <> [] ->
  (forall u, f u = []) ->
  match_at R (p, b ++ s) = Some (length b) ->
  replace_go R f p (b ++ s) 0 = replace_go R f None s 0.
Proof.
  intros Hb Hf Hm. destruct b as [|c b]; [congruence|].
  cbn [app length] in Hm |- *. cbn [replace_go]. rewrite Hm, Hf.
  cbn [app]. apply replace_go_skip.
Qed.

End ReplaceSteps.

(** X17: one pass of a tag-block pattern removes a whole block, written in
    any letter case, whose content holds no [<], and treats what follows
    on its own: the text before the block, if it holds no [<], is kept. *)
Theorem tag_block_removes_block (name : string) (pre o inner cl post : str) :
  In name tag_names ->
  map canon o = map canon (lit "<" ++ lit name) ->
  map canon cl = map canon (lit "</" ++ lit name ++ lit ">") ->
  ~ In (ch "<") pre ->
  ~ In (ch "<") inner ->
  is_word_opt (hd_error inner) = false ->
  replace (tag_block name) (fun _ => []) (pre ++ o ++ inner ++ cl ++ post)
  = pre ++ replace (tag_block name) (fun _ => []) post.
Proof.
  intros Hn Ho Hcl Hpre Hin Hb. unfold replace.
  assert (Hw : is_word (last o 0%N) = true).
  { rewrite <- (is_word_canon _ _ (last_canon _ _ (eq_sym Ho))).
    cbn in Hn. decompose [or] Hn; subst; try contradiction; reflexivity. }
  rewrite (replace_go_copy _ _ (tag_block_prev name)).
  - f_equal.
    replace (o ++ inner ++ cl ++ post) with ((o ++ inner ++ cl) ++ post)
      by now rewrite <- !app_assoc.
    apply (replace_go_cut _ _ (tag_block_prev name)).
    + destruct o; [discriminate|discriminate].
    + reflexivity.
    + rewrite <- !app_assoc.
      apply tag_block_match; auto.
  - intros p u v Hu.
    destruct (match_at (tag_block name) (p, u :: v)) as [n|] eqn:E;
      [|reflexivity].
    apply tag_block_starts in E. cbn in E. injection E as ->.
    contradiction.
Qed.

(** X17 at an upper-case script block between two letters. *)
Lemma tag_block_removes_block_witness :
  In "script"%string tag_names
  /\ map canon (lit "<SCRIPT") = map canon (lit "<" ++ lit "script")
  /\ map canon (lit "</Script>")
     = map canon (lit "</" ++ lit "script" ++ lit ">")
  /\ ~ In (ch "<") (lit "a")
  /\ ~ In (ch "<") (lit " src=x>alert(1)")
  /\ is_word_opt (hd_error (lit " src=x>alert(1)")) = false
  /\ replace (tag_block "script") (fun _ => [])
       (lit "a" ++ lit "<SCRIPT" ++ lit " src=x>alert(1)" ++ lit "</Script>"
        ++ lit "b")
     = lit "a" ++ replace (tag_block "script") (fun _ => []) (lit "b").
Proof.
  assert (H1 : In "script"%string tag_names) by (cbn; tauto).
  assert (H2 : map canon (lit "<SCRIPT") = map canon (lit "<" ++ lit "script"))
    by reflexivity.
  assert (H3 : map canon (lit "</Script>")
               = map canon (lit "</" ++ lit "script" ++ lit ">"))
    by reflexivity.
  assert (H4 : ~ In (ch "<") (lit "a"))
    by (cbn; intros [H|[]]; discriminate).
  assert (H5 : ~ In (ch "<") (lit " src=x>alert(1)"))
    by (cbn; intros H; decompose [or] H; discriminate || contradiction).
  assert (H6 : is_word_opt (hd_error (lit " src=x>alert(1)")) = false)
    by reflexivity.
  repeat (split; [assumption|]).
  exact (tag_block_removes_block "script" _ _ _ _ _ H1 H2 H3 H4 H5 H6).
Defined.

(** ** What the event-handler and scheme patterns remove *)

(** The greedy run of a starred character class over a stretch of the
    class that is followed by a code unit outside it, or by the end. *)
Lemma class_run (P : code_unit -> bool)
      (body : cursor -> (cursor -> option cursor) -> option cursor)
      (k : cursor -> option cursor) (z : cursor) (rest' : str) :
  (forall x k', body x k' = one P x k') ->
  (forall q, k (q, rest') = Some z) ->
  match rest' with [] => True | d :: _ => P d = false end ->
  forall run p n,
    forallb P run = true ->
    length (run ++ rest') < n ->
    repeat_matcher body k n (p, run ++ rest') = Some z.
Proof.
  intros Hbody Hk Hr. induction run as [|c run IH]; intros p n Hrun Hn.
  - cbn [app] in *. destruct n as [|n]; [apply Hk|].
    cbn [repeat_matcher]. rewrite Hbody.
    destruct rest' as [|d u]; [cbn; apply Hk|].
    rewrite one_step, Hr. apply Hk.
  - destruct n as [|n]; [cbn in Hn; lia|].
    cbn [forallb] in Hrun. apply andb_true_iff in Hrun.
    destruct Hrun as [Hc Hrun].
    cbn [repeat_matcher app]. rewrite Hbody, one_step, Hc.
    cbn [rest snd length].
    replace (length (run ++ rest') =? S (length (run ++ rest'))) with false
      by (symmetry; apply Nat.eqb_neq; lia).
    rewrite IH; [reflexivity|exact Hrun|cbn [app length] in Hn; lia].
Qed.

Lemma is_space_not_word (c : code_unit) : is_space c = true -> is_word c = false.
Proof.
  unfold is_space, is_word. intros H.
  destruct (N.leb_spec 65 c), (N.leb_spec c 90), (N.leb_spec 97 c),
    (N.leb_spec c 122), (N.leb_spec 48 c), (N.leb_spec c 57),
    (N.eqb_spec c 95); cbn [andb orb]; try reflexivity; exfalso;
    repeat (apply orb_true_iff in H; destruct H as [H|H]);
    try (apply andb_true_iff in H; destruct H as [Hlo Hhi];
         apply N.leb_le in Hlo; apply N.leb_le in Hhi);
    try (apply N.eqb_eq in H); lia.
Qed.

Lemma on_handler_source :
  source on_handler
  = Seq (Lit (lit "on"))
      (Seq (Seq WordCh (Star WordCh)) (Seq (Star SpaceCh) (Chr (ch "=")))).
Proof. reflexivity. Qed.

(** The match of the event-handler pattern on [on], a word, optional
    white space and [=]: that token, and nothing of what follows. *)
Lemma on_handler_match (o w sp post : str) (p : option code_unit) :
  map canon (lit "on") = map canon o ->
  w <> [] -> forallb is_word w = true ->
  forallb is_space sp = true ->
  match_at on_handler (p, o ++ w ++ sp ++ ch "=" :: post)
  = Some (length (o ++ w ++ sp ++ [ch "="])).
Proof.
  intros Ho Hw Hww Hsp.
  unfold match_at. rewrite on_handler_source.
  change (ignoreCase on_handler) with true.
  rewrite m_seq, m_lit_exact by (discriminate || exact Ho).
  destruct w as [|c w]; [congruence|].
  cbn [forallb] in Hww. apply andb_true_iff in Hww. destruct Hww as [Hc Hww].
  rewrite !m_seq. cbn [app].
  change (m true WordCh) with (one is_word) at 1. rewrite one_step, Hc.
  rewrite m_star.
  set (k2 := fun y : cursor => m true (Chr (ch "=")) y (fun y0 => Some y0)).
  set (k1 := fun y : cursor => m true (Seq (Star SpaceCh) (Chr (ch "="))) y
                                 (fun y0 => Some y0)).
  assert (H2 : forall q, k2 (q, ch "=" :: post) = Some (Some (ch "="), post)).
  { intros q. unfold k2. cbn [m]. now rewrite one_step. }
  assert (H1 : forall q, k1 (q, sp ++ ch "=" :: post)
                         = Some (Some (ch "="), post)).
  { intros q. unfold k1. rewrite m_seq, m_star. fold k2.
    apply (class_run is_space (m true SpaceCh) k2 _ (ch "=" :: post));
      [reflexivity|exact H2|reflexivity|exact Hsp|cbn [rest snd]; lia]. }
  rewrite (class_run is_word (m true WordCh) k1 (Some (ch "="), post)
             (sp ++ ch "=" :: post));
    [|reflexivity|exact H1| |exact Hww|cbn [rest snd]; lia].
  - cbn [rest snd]. f_equal. rewrite !length_app. cbn [length].
    rewrite !length_app. cbn [length]. lia.
  - destruct sp as [|d sp]; [reflexivity|].
    cbn [forallb] in Hsp. apply andb_true_iff in Hsp.
    apply is_space_not_word, Hsp.
Qed.

Lemma lit_start (c : code_unit) (l : str) (r : re) (p : option code_unit)
      (s : str) (z : cursor) (k : cursor -> option cursor) :
  m true (Seq (Lit (c :: l)) r) (p, s) k = Some z ->
  exists d s', s = d :: s' /\ canon c = canon d.
Proof.
  intros H. apply m_lit_head in H. destruct H as [d [s' [E P]]].
  cbn [rest snd] in E. unfold chr_eq in P. apply N.eqb_eq in P.
  now exists d, s'.
Qed.

Lemma lit_first_prev (c : code_unit) (l : str) (p q : option code_unit)
      (s : str) (k : cursor -> option cursor) :
  m true (Lit (c :: l)) (p, s) k = m true (Lit (c :: l)) (q, s) k.
Proof.
  destruct l as [|c' l]; cbn [Lit]; [|rewrite !m_seq]; cbn [m];
    (destruct s as [|d s]; [reflexivity|]); now rewrite !one_step.
Qed.

Lemma on_handler_prev (p q : option code_unit) (s : str) :
  match_at on_handler (p, s) = match_at on_handler (q, s).
Proof.
  unfold match_at. rewrite on_handler_source.
  change (ignoreCase on_handler) with true. cbn [rest snd].
  rewrite !(m_seq true (Lit (lit "on"))).
  now rewrite (lit_first_prev (ch "o") [ch "n"] p q).
Qed.

(** X18: one pass of the event-handler pattern removes [on], the word
    after it, the white space and the [=], in any letter case, and nothing
    of the attribute value that follows, which is treated on its own; the
    text before it is kept when it holds no letter [o]. *)
Theorem on_handler_removes_token (pre o w sp post : str) :
  map canon o = map canon (lit "on") ->
  w <> [] ->
  forallb is_word w = true ->
  forallb is_space sp = true ->
  forallb (fun c => negb (canon c =? canon (ch "o"))%N) pre = true ->
  replace on_handler (fun _ => []) (pre ++ o ++ w ++ sp ++ ch "=" :: post)
  = pre ++ replace on_handler (fun _ => []) post.
Proof.
  intros Ho Hw Hww Hsp Hpre. unfold replace.
  rewrite (replace_go_copy _ _ on_handler_prev).
  - f_equal.
    replace (o ++ w ++ sp ++ ch "=" :: post)
      with ((o ++ w ++ sp ++ [ch "="]) ++ post)
      by now rewrite <- !app_assoc.
    apply (replace_go_cut _ _ on_handler_prev).
    + destruct o; [discriminate|discriminate].
    + reflexivity.
    + rewrite <- !app_assoc. cbn [app].
      now apply on_handler_match.
  - intros p u v Hu.
    destruct (match_at on_handler (p, u :: v)) as [n|] eqn:E; [|reflexivity].
    exfalso. unfold match_at in E. rewrite on_handler_source in E.
    change (ignoreCase on_handler) with true in E.
    destruct (m true _ (p, u :: v) _) as [z|] eqn:E'; [|discriminate].
    apply (lit_start (ch "o") [ch "n"]) in E'.
    destruct E' as [d [s' [Es Ec]]]. injection Es as <- _.
    rewrite forallb_forall in Hpre. specialize (Hpre u Hu).
    apply negb_true_iff, N.eqb_neq in Hpre. congruence.
Qed.

(** X18 at a handler with a blank before the equals sign. *)
Lemma on_handler_removes_token_witness :
  map canon (lit "ON") = map canon (lit "on")
  /\ lit "click" <> []
  /\ forallb is_word (lit "click") = true
  /\ forallb is_space (lit " ") = true
  /\ forallb (fun c => negb (canon c =? canon (ch "o"))%N) (lit "<a ") = true
  /\ replace on_handler (fun _ => [])
       (lit "<a " ++ lit "ON" ++ lit "click" ++ lit " " ++ ch "=" :: lit "f()>")
     = lit "<a " ++ replace on_handler (fun _ => []) (lit "f()>").
Proof.
  assert (H2 : lit "click" <> []) by discriminate.
  split; [reflexivity|]. split; [exact H2|].
  split; [reflexivity|]. split; [reflexivity|]. split; [reflexivity|].
  exact (on_handler_removes_token (lit "<a ") (lit "ON") (lit "click")
           (lit " ") (lit "f()>") eq_refl H2 eq_refl eq_refl eq_refl).
Defined.

Lemma scheme_prev (token : string) (p q : option code_unit) (s : str) :
  match_at (scheme token) (p, s) = match_at (scheme token) (q, s).
Proof.
  unfold match_at. cbn [scheme source ignoreCase rest snd].
  destruct (lit token) as [|c l]; [now destruct s|].
  now rewrite (lit_first_prev c l p q).
Qed.

(** X19: one pass of a scheme pattern removes an occurrence of its token,
    in any letter case, and treats what follows on its own; the text
    before it is kept when it holds nothing equal, up to case, to the
    first character of the token. *)
Theorem scheme_removes_token (token : string) (pre t post : str) :
  In token ["javascript:"; "vbscript:"; "data:"]%string ->
  map canon t = map canon (lit token) ->
  forallb (fun d => negb (canon (hd 0%N (lit token)) =? canon d)%N) pre = true ->
  replace (scheme token) (fun _ => []) (pre ++ t ++ post)
  = pre ++ replace (scheme token) (fun _ => []) post.
Proof.
  intros Ht Hc Hpre. unfold replace.
  assert (Hl : exists c l, lit token = c :: l).
  { cbn in Ht. decompose [or] Ht; subst; try contradiction;
      eexists; eexists; reflexivity. }
  destruct Hl as [c [l El]].
  rewrite (replace_go_copy _ _ (scheme_prev token)).
  - f_equal. apply (replace_go_cut _ _ (scheme_prev token)).
    + rewrite El in Hc. destruct t; [discriminate|discriminate].
    + reflexivity.
    + unfold match_at. cbn [scheme source ignoreCase].
      rewrite m_lit_exact; [|rewrite El; discriminate|now symmetry].
      cbn [rest snd]. f_equal. rewrite length_app. lia.
  - intros p u v Hu.
    destruct (match_at (scheme token) (p, u :: v)) as [n|] eqn:E;
      [|reflexivity].
    exfalso. unfold match_at in E. cbn [scheme source ignoreCase] in E.
    destruct (m true _ (p, u :: v) _) as [z|] eqn:E'; [|discriminate].
    apply m_lit_prefix in E'. cbn [rest snd] in E'. rewrite El in E', Hpre.
    cbn [prefix_ci] in E'. apply andb_true_iff in E'. destruct E' as [E' _].
    rewrite forallb_forall in Hpre. specialize (Hpre u Hu).
    cbn [hd] in Hpre. rewrite E' in Hpre. discriminate.
Qed.

(** X19 at a token in mixed case inside a link. *)
Lemma scheme_removes_token_witness :
  In "javascript:"%string ["javascript:"; "vbscript:"; "data:"]%string
  /\ map canon (lit "JavaScript:") = map canon (lit "javascript:")
  /\ forallb (fun d => negb (canon (hd 0%N (lit "javascript:")) =? canon d)%N)
       (lit "href ") = true
  /\ replace (scheme "javascript:") (fun _ => [])
       (lit "href " ++ lit "JavaScript:" ++ lit "f()")
     = lit "href " ++ replace (scheme "javascript:") (fun _ => []) (lit "f()").
Proof.
  assert (H1 : In "javascript:"%string
                  ["javascript:"; "vbscript:"; "data:"]%string)
    by (cbn; tauto).
  split; [exact H1|]. split; [reflexivity|]. split; [reflexivity|].
  exact (scheme_removes_token "javascript:" (lit "href ") (lit "JavaScript:")
           (lit "f()") H1 eq_refl eq_refl).
Defined.

(** ** Texts in which no pattern matches *)

Lemma dangerous_prev (R : RegExp) :
  In R DANGEROUS_PATTERNS ->
  forall p q s, match_at R (p, s) = match_at R (q, s).
Proof.
  intros HR p q s. cbn [DANGEROUS_PATTERNS In] in HR.
  destruct HR as [<-|[<-|[<-|[<-|[<-|[<-|[<-|[<-|[<-|[<-|[<-|[]]]]]]]]]]]];
    try apply tag_block_prev; try apply scheme_prev.
  apply on_handler_prev.
Qed.

Lemma matches_false_elim (R : RegExp) (s : str) :
  (forall p q u, match_at R (p, u) = match_at R (q, u)) ->
  matches R s = false ->
  forall p u, suffix u s -> match_at R (p, u) = None.
Proof.
  intros Hprev H p u Su.
  destruct (match_at R (p, u)) as [n|] eqn:E; [|reflexivity].
  rewrite (matches_intro R s u Su) in H; [discriminate|].
  intros q. rewrite (Hprev q p u), E. discriminate.
Qed.

Lemma skipn_suffix (k : nat) (s : str) : suffix (skipn k s) s.
Proof. exists (firstn k s). symmetry. apply firstn_skipn. Qed.

(** X20: when no dangerous pattern matches in the trimmed input,
    [sanitizeInput] returns the escape of the trimmed input, cut to 5000
    code units: every code unit is kept or replaced by its entity. *)
Theorem sanitizeInput_escapes_clean_text (s : str) (st : store) :
  forallb (fun R => negb (matches R (trim s))) DANGEROUS_PATTERNS = true ->
  fst (sanitizeInput (VString s) st) = clamp (escapeHtml (trim s)).
Proof.
  intros H. rewrite sanitizeInput_fst.
  destruct (trim s) as [|c u] eqn:T.
  - now rewrite (sanitized_text_nil s T).
  - unfold sanitized_text. destruct s as [|x l]; [discriminate|].
    cbn [guard truthy is_string negb orb]. rewrite T.
    rewrite remove_all_id; [now rewrite strip_tags_escaped|].
    intros R HR k p. rewrite forallb_forall in H.
    apply (matches_false_elim R (c :: u) (dangerous_prev R HR)).
    + apply negb_true_iff. now apply H.
    + apply skipn_suffix.
Qed.

(** X20 at a comparison with an ampersand. *)
Lemma sanitizeInput_escapes_clean_text_witness :
  forallb (fun R => negb (matches R (trim (lit " a < b & c "))))
          DANGEROUS_PATTERNS = true
  /\ fst (sanitizeInput (VString (lit " a < b & c ")) fresh)
     = clamp (escapeHtml (trim (lit " a < b & c "))).
Proof.
  assert (H : forallb (fun R => negb (matches R (trim (lit " a < b & c "))))
                      DANGEROUS_PATTERNS = true) by (vm_compute; reflexivity).
  split; [exact H|].
  exact (sanitizeInput_escapes_clean_text (lit " a < b & c ") fresh H).
Defined.

(** The tag-block patterns are the first seven entries of the list, and the
    scheme and event-handler patterns the last four. *)
Lemma dangerous_patterns_shape :
  DANGEROUS_PATTERNS
  = map tag_block tag_names
    ++ map scheme ["javascript:"; "vbscript:"; "data:"]%string
    ++ [on_handler].
Proof. reflexivity. Qed.
